(** * download_music.py: a shallow embedding and its properties

    The script reads a CSV export of tracks and, for every row, asks
    yt_dlp to search for "<artists> <name>" and to store the best audio
    stream as mp3 under ~/Music.

    What the script itself does is embedded below: indexing [sys.argv],
    [os.path.expanduser], the [ydl_opts] dictionary, [open],
    [csv.DictReader] on top of the records that [csv.reader] yields,
    the two row lookups, the two f-strings, [print] and the call of
    [ydl.download].  What the outside world does is kept abstract:

    - the text of a file is given as the list of records [csv.reader]
      produces for it (a blank line is the empty record);
    - [ydl.download] is an oracle over an abstract world state, which
      either returns or raises [DownloadError];
    - the home directory is an input of the run.

    The script is embedded twice.  The first embedding ([open],
    [DictReader], [download_music]) is the script on input that is
    read without trouble: a path names a regular file or nothing, and
    the reader reads the file to its end.  The second one, in module
    [Io], adds what [open] and the reader do otherwise: the other
    errors of [open], the reader's error for a field beyond the field
    size limit, and the decoder's error for bytes that are not UTF-8,
    both raised lazily, when the loop asks for the record concerned.
    [io_run_read_to_end] relates the two. *)

From Stdlib Require Import String Ascii List.
From stdpp Require Import gmap strings list fin_maps.

Open Scope string_scope.
Open Scope list_scope.

(** ** Exceptions and observable events *)

(** The exceptions that the statements of the script can raise. *)
Inductive exn : Type :=
| IndexError                          (* sys.argv[1] without an argument *)
| FileNotFoundError (filename : string)
| KeyError (key : string)
| DownloadError (msg : string)
| NotADirectoryError (filename : string)
| IsADirectoryError (filename : string)
| PermissionError (filename : string)
| OSError (code : nat) (filename : string)
| CsvError (msg : string)             (* _csv.Error *)
| UnicodeDecodeError.

(** A value of the options dictionary handed to [yt_dlp.YoutubeDL]:
    a string, or a list of string-to-string dictionaries. *)
Inductive opt_value : Type :=
| OStr (s : string)
| ODicts (ds : list (gmap string string)).

(** What a run does to the outside, in program order.  A download event
    records the downloader object the method is called on (represented
    by the parameters it was constructed with), the list passed to
    [download], and how the call ended: [None] when it returned,
    [Some msg] when it raised [DownloadError msg]. *)
Inductive event : Type :=
| EYoutubeDL (params : gmap string opt_value)
| EPrint (line : string)
| EDownload (ydl : gmap string opt_value) (url_list : list string)
    (raised : option string).

(** ** os.path.expanduser (posixpath) *)

(** [s.rstrip('/')] *)
Fixpoint rstrip_sep (s : string) : string :=
  match s with
  | EmptyString => EmptyString
  | String c s' =>
      match rstrip_sep s' with
      | EmptyString => if Ascii.eqb c "/" then EmptyString else String c EmptyString
      | r => String c r
      end
  end.

(** [s.find('/')], counted from the start of [s]; [None] when absent. *)
Fixpoint find_sep (s : string) : option nat :=
  match s with
  | EmptyString => None
  | String c s' => if Ascii.eqb c "/" then Some 0 else S <$> find_sep s'
  end.

(** [s[i:]] *)
Fixpoint string_drop (i : nat) (s : string) : string :=
  match i, s with
  | 0, _ => s
  | S i', String _ s' => string_drop i' s'
  | S _, EmptyString => EmptyString
  end.

(** [s[:i]] *)
Fixpoint string_take (i : nat) (s : string) : string :=
  match i, s with
  | 0, _ => EmptyString
  | S i', String c s' => String c (string_take i' s')
  | S _, EmptyString => EmptyString
  end.

(** The part of the process environment that [expanduser] consults:
    [$HOME], the home directory of the current user in the password
    database, and the password database by user name. *)
Record environment : Type := {
  environ_HOME : option string;
  getpwuid_dir : option string;
  getpwnam_dir : string -> option string;
}.

Definition expanduser (env : environment) (path : string) : string :=
  match path with
  | String "~" tail =>
      (* i = path.find('/', 1), or len(path) *)
      let i := match find_sep tail with
               | Some k => S k
               | None => String.length path
               end in
      let userhome :=
        if Nat.eqb i 1 then
          match environ_HOME env with
          | Some h => Some h
          | None => getpwuid_dir env
          end
        else getpwnam_dir env (string_take (i - 1) tail) in
      match userhome with
      | None => path
      | Some h =>
          match rstrip_sep h +:+ string_drop i path with
          | EmptyString => "/"
          | p => p
          end
      end
  | _ => path
  end.

(** ** The module-level configuration *)

Definition output_dir (env : environment) : string :=
  expanduser env "~/Music".

Definition ydl_opts (env : environment) : gmap string opt_value :=
  <["outtmpl" := OStr (output_dir env +:+ "/%(title)s.%(ext)s")]>
  (<["postprocessors" :=
       ODicts [ <["preferredcodec" := "mp3"]>
                (<["key" := "FFmpegExtractAudio"]> ∅) ]]>
  (<["format" := OStr "bestaudio/best"]> ∅)).

(** ** csv.DictReader *)

(** A file is the list of records that [csv.reader] yields for it. *)
Abbreviation csv_file := (list (list string)).

(** The dictionary that [DictReader] yields for one record.  Its string
    keys map to a cell, or to [None] (the default [restval]) for a
    column the record is too short for; the surplus cells of a record
    that is too long are stored under the key [None] (the default
    [restkey]), kept here as [row_rest]. *)
Record row : Type := {
  row_fields : gmap string (option string);
  row_rest : option (list string);
}.

(** [dict(zip(fieldnames, record))]: a later duplicate column wins. *)
Definition dict_zip (fieldnames record : list string)
  : gmap string (option string) :=
  foldl (fun d kv => <[kv.1 := Some kv.2]> d) ∅ (zip fieldnames record).

(** The body of [DictReader.__next__] after a non-blank record is read. *)
Definition make_row (fieldnames record : list string) : row :=
  let d := dict_zip fieldnames record in
  let lf := length fieldnames in
  let lr := length record in
  if decide (lf < lr) then
    {| row_fields := d; row_rest := Some (drop lf record) |}
  else
    {| row_fields := foldl (fun d key => <[key := None]> d) d (drop lr fieldnames);
       row_rest := None |}.

(** The rows a [DictReader] over the file yields: the first record gives
    the field names, blank records are skipped.  A file without any
    record yields nothing.  This is the reader on a file that it reads
    to the end; [Io.DictReader] covers the errors it can raise on the
    way. *)
Definition DictReader (f : csv_file) : list row :=
  match f with
  | [] => []
  | fieldnames :: records =>
      make_row fieldnames <$> filter (fun r => r ≠ []) records
  end.

(** How an f-string renders a looked-up field. *)
Definition format_field (v : option string) : string :=
  match v with
  | Some s => s
  | None => "None"
  end.

(** [f"Downloading: {artists} - {name}"] *)
Definition progress_line (name artists : option string) : string :=
  "Downloading: " +:+ format_field artists +:+ " - " +:+ format_field name.

(** [f'ytsearch:{artists} {name}'] *)
Definition search_url (name artists : option string) : string :=
  "ytsearch:" +:+ format_field artists +:+ " " +:+ format_field name.

(** [s] without its prefix [p]; [None] when [s] does not start with [p]. *)
Fixpoint strip_prefix (p s : string) : option string :=
  match p, s with
  | EmptyString, _ => Some s
  | String a p', String b s' =>
      if Ascii.eqb a b then strip_prefix p' s' else None
  | String _ _, EmptyString => None
  end.

(** The text a [ytsearch:] URL asks the downloader to search for. *)
Definition ytsearch_query (url : string) : option string :=
  strip_prefix "ytsearch:" url.

(** ** The interpreter monad and the script *)

Section Script.

(** The state of everything outside the process. *)
Variable World : Type.

(** [YoutubeDL(params).download(url_list)] in a given world: the world
    it leaves, and [Some msg] when it raises [DownloadError msg]. *)
Variable ydl_download :
  gmap string opt_value -> World -> list string -> World * option string.

(** A computation emits events, changes the world, and returns a
    value or raises. *)
Definition Py (A : Type) : Type :=
  World -> list event * World * (exn + A).

Definition ret {A} (a : A) : Py A := fun w => ([], w, inr a).

Definition raise {A} (e : exn) : Py A := fun w => ([], w, inl e).

Definition bind {A B} (m : Py A) (k : A -> Py B) : Py B :=
  fun w =>
    match m w with
    | (t, w', inl e) => (t, w', inl e)
    | (t, w', inr a) =>
        match k a w' with
        | (t', w'', v) => (t ++ t', w'', v)
        end
    end.

Notation "'let*' x ':=' m 'in' k" := (bind m (fun x => k))
  (at level 10, x name, m at level 100, k at level 200).
Notation "m '>>' k" := (bind m (fun _ => k))
  (at level 100, k at level 200, right associativity).

Definition emit (e : event) : Py unit := fun w => ([e], w, inr tt).

(** [for x in xs: body(x)] *)
Fixpoint for_each {A} (xs : list A) (body : A -> Py unit) : Py unit :=
  match xs with
  | [] => ret tt
  | x :: xs' => body x >> for_each xs' body
  end.

(** [sys.argv[i]] *)
Definition argv_get (argv : list string) (i : nat) : Py string :=
  match argv !! i with
  | Some a => ret a
  | None => raise IndexError
  end.

(** [yt_dlp.YoutubeDL(params)]; the object is represented by the
    parameters it was built with. *)
Definition YoutubeDL (params : gmap string opt_value)
  : Py (gmap string opt_value) :=
  emit (EYoutubeDL params) >> ret params.

(** [open(path, newline='', encoding='utf-8')], for a file system in
    which a path names a regular file or nothing at all; [Io.open]
    covers the other answers of the operating system. *)
Definition open (fs : gmap string csv_file) (path : string) : Py csv_file :=
  match fs !! path with
  | Some f => ret f
  | None => raise (FileNotFoundError path)
  end.

(** [row[key]] *)
Definition getitem (r : row) (key : string) : Py (option string) :=
  match row_fields r !! key with
  | Some v => ret v
  | None => raise (KeyError key)
  end.

Definition print (line : string) : Py unit := emit (EPrint line).

(** [ydl.download(url_list)] *)
Definition download (ydl : gmap string opt_value) (url_list : list string)
  : Py unit :=
  fun w =>
    match ydl_download ydl w url_list with
    | (w', None) => ([EDownload ydl url_list None], w', inr tt)
    | (w', Some msg) =>
        ([EDownload ydl url_list (Some msg)], w', inl (DownloadError msg))
    end.

(** The body of the [for row in reader] loop. *)
Definition process_row (ydl : gmap string opt_value) (r : row) : Py unit :=
  let* name := getitem r "Track Name" in
  let* artists := getitem r "Artist Name(s)" in
  print (progress_line name artists) >>
  download ydl [search_url name artists].

(** The whole script. *)
Definition download_music (env : environment) (fs : gmap string csv_file)
    (argv : list string) : Py unit :=
  let* input_file := argv_get argv 1 in
  let* ydl := YoutubeDL (ydl_opts env) in
  let* f := open fs input_file in
  for_each (DictReader f) (process_row ydl).

(** The download invocations of a trace, in order. *)
Definition downloads (t : list event) : list (list string * option string) :=
  omap (fun e => match e with
                 | EDownload _ us r => Some (us, r)
                 | _ => None
                 end) t.

(** The lines printed in a trace, in order. *)
Definition printed (t : list event) : list string :=
  omap (fun e => match e with EPrint l => Some l | _ => None end) t.

(** The world after the download invocations of a trace have run one
    after the other, starting from [w]. *)
Fixpoint replay (w : World) (t : list event) : World :=
  match t with
  | [] => w
  | EDownload ydl us _ :: t' => replay (ydl_download ydl w us).1 t'
  | _ :: t' => replay w t'
  end.

(** Every download invocation of the trace starts in the world that
    the invocation before it (or the start of the run) left, and ends
    the way the downloader ends there. *)
Fixpoint threaded (w : World) (t : list event) : Prop :=
  match t with
  | [] => True
  | EDownload ydl us r :: t' =>
      (ydl_download ydl w us).2 = r ∧ threaded (ydl_download ydl w us).1 t'
  | _ :: t' => threaded w t'
  end.

End Script.

(** The three parts of what a computation leaves. *)
Definition trace_of {World A} (x : list event * World * (exn + A)) : list event :=
  x.1.1.
Definition world_of {World A} (x : list event * World * (exn + A)) : World :=
  x.1.2.
Definition result_of {World A} (x : list event * World * (exn + A)) : exn + A :=
  x.2.

Arguments ret {World A} a w.
Arguments raise {World A} e w.
Arguments bind {World A B} m k w.
Arguments for_each {World A} xs body w.
Arguments downloads t : simpl never.
Arguments printed t : simpl never.

(** ** The input files the specification calls well formed *)

(** A record supplies a column when the header names it at a position
    the record has a cell for. *)
Definition supplies (fieldnames record : list string) (column : string) : Prop :=
  column ∈ take (length record) fieldnames.

(** The header names both columns and every data row supplies both. *)
Definition well_formed (f : csv_file) : Prop :=
  match f with
  | [] => False
  | header :: records =>
      "Track Name" ∈ header ∧ "Artist Name(s)" ∈ header ∧
      Forall (fun r => supplies header r "Track Name" ∧
                       supplies header r "Artist Name(s)") records
  end.

(** The data rows of a file: every record after the header. *)
Definition data_rows (f : csv_file) : list (list string) := tail f.

(** Two rows carry the same values in the two columns the script reads. *)
Definition agree (r1 r2 : row) : Prop :=
  row_fields r1 !! "Track Name" = row_fields r2 !! "Track Name" ∧
  row_fields r1 !! "Artist Name(s)" = row_fields r2 !! "Artist Name(s)".

(** ** Opening and reading the file, with their failures *)

(** What the operating system answers when a file cannot be opened for
    reading. *)
Inductive errno : Type :=
| ENOENT                              (* no such file or directory *)
| ENOTDIR                             (* a component used as a directory is not one *)
| EISDIR                              (* the path names a directory *)
| EACCES                              (* permission denied *)
| EPERM                               (* operation not permitted *)
| EOTHER (code : nat).

(** The subclass of OSError that Python raises for an error number. *)
Definition os_error (e : errno) (filename : string) : exn :=
  match e with
  | ENOENT => FileNotFoundError filename
  | ENOTDIR => NotADirectoryError filename
  | EISDIR => IsADirectoryError filename
  | EACCES | EPERM => PermissionError filename
  | EOTHER code => OSError code filename
  end.

(** How the bytes of a file end for the decoder: at the end of the file,
    or at bytes that are not UTF-8. *)
Inductive ending : Type :=
| EndOfFile
| Undecodable.

(** An open file as the reader meets it: the records that the csv parser
    cuts from the decoded text, in order, up to the end of the file or,
    when the file holds bytes that are not UTF-8, up to the request at
    which the decoder raises.  The decoder reads ahead in chunks, so
    these are the records delivered before it fails, which need not be
    all the records that stand before the bad bytes.  Cells hold their
    text encoded in UTF-8. *)
Record file_text : Type := {
  text_records : csv_file;
  text_end : ending;
}.

(** The file system as [open] sees it: for each path, the error number
    or the file. *)
Abbreviation filesystem := (string -> errno + file_text).

(** [csv.field_size_limit()], which the script leaves at its default. *)
Definition field_size_limit : N := 131072.

(** The number of characters of a cell: the bytes that are not UTF-8
    continuation bytes (10xxxxxx). *)
Fixpoint char_length_from (acc : N) (s : string) : N :=
  match s with
  | EmptyString => acc
  | String (Ascii _ _ _ _ _ _ false true) s' => char_length_from acc s'
  | String _ s' => char_length_from (N.succ acc) s'
  end.

Definition char_length (s : string) : N := char_length_from 0 s.

(** The parser refuses to add a character to a field that already holds
    [field_size_limit] of them. *)
Definition oversized (cell : string) : bool :=
  N.ltb field_size_limit (char_length cell).

(** Iterating [csv.reader] over the file: the records it yields, in
    order, and how the iteration ends: [None] for StopIteration at the
    end of the file, or the exception raised when the next record is
    asked for. *)
Fixpoint reader (records : csv_file) (e : ending)
  : list (list string) * option exn :=
  match records with
  | [] =>
      ([], match e with
           | EndOfFile => None
           | Undecodable => Some UnicodeDecodeError
           end)
  | record :: rest =>
      if existsb oversized record
      then ([], Some (CsvError "field larger than field limit (131072)"))
      else
        match reader rest e with
        | (yielded, stop) => (record :: yielded, stop)
        end
  end.

Module Io.

(** Iterating [csv.DictReader] over the file: the rows it yields and how
    the iteration ends.  The first record read gives the field names,
    blank records are skipped. *)
Definition DictReader (f : file_text) : list row * option exn :=
  match reader (text_records f) (text_end f) with
  | ([], stop) => ([], stop)
  | (fieldnames :: records, stop) =>
      (make_row fieldnames <$> filter (fun r => r ≠ []) records, stop)
  end.

Section Script.

Variable World : Type.
Variable ydl_download :
  gmap string opt_value -> World -> list string -> World * option string.

Notation "'let*' x ':=' m 'in' k" := (bind m (fun x => k))
  (at level 10, x name, m at level 100, k at level 200).
Notation "m '>>' k" := (bind m (fun _ => k))
  (at level 100, k at level 200, right associativity).

(** [open(path, newline='', encoding='utf-8')] *)
Definition open (os : filesystem) (path : string) : Py World file_text :=
  match os path with
  | inr f => ret f
  | inl e => raise (os_error e path)
  end.

(** [for row in reader: body(row)]: the body runs on each row as it is
    yielded; when the rows are exhausted without the body raising, the
    iteration ends, normally or with the exception of the reader. *)
Definition for_rows (it : list row * option exn) (body : row -> Py World unit)
  : Py World unit :=
  for_each it.1 body >>
  match it.2 with
  | None => ret tt
  | Some e => raise e
  end.

(** The whole script. *)
Definition download_music (env : environment) (os : filesystem)
    (argv : list string) : Py World unit :=
  let* input_file := argv_get World argv 1 in
  let* ydl := YoutubeDL World (ydl_opts env) in
  let* f := open os input_file in
  for_rows (DictReader f) (process_row World ydl_download ydl).

End Script.

End Io.

(** ** A file system of regular files and directories *)

(** What a path names. *)
Inductive node : Type :=
| File (text : file_text)
| Dir.

(** The proper prefixes of a path that end just before a slash, the
    shortest first: the directories that the path goes through. *)
Fixpoint dir_prefixes_from (acc path : string) : list string :=
  match path with
  | EmptyString => []
  | String c path' =>
      if Ascii.eqb c "/"
      then acc :: dir_prefixes_from (acc +:+ String c EmptyString) path'
      else dir_prefixes_from (acc +:+ String c EmptyString) path'
  end.

Definition dir_prefixes (path : string) : list string :=
  filter (fun p => p ≠ EmptyString) (dir_prefixes_from EmptyString path).

(** Path resolution over a tree given by its normalised paths (no ".",
    "..", doubled slash or symbolic link; every directory is
    searchable, every file readable): the first component on the way
    that is not a directory decides, then what the path itself names. *)
Definition posix_open (tree : gmap string node) : filesystem :=
  fun path =>
    match List.find (fun p => match tree !! p with
                              | Some Dir => false
                              | _ => true
                              end) (dir_prefixes path) with
    | Some p =>
        match tree !! p with
        | Some (File _) => inl ENOTDIR
        | _ => inl ENOENT
        end
    | None =>
        match tree !! path with
        | Some (File f) => inr f
        | Some Dir => inl EISDIR
        | None => inl ENOENT
        end
    end.

(** A regular file whose text is read to the end. *)
Definition plain (f : csv_file) : file_text :=
  {| text_records := f; text_end := EndOfFile |}.

(** ** Sample inputs *)

(** A process environment with [$HOME] set. *)
Definition sample_env : environment :=
  {| environ_HOME := Some "/home/user";
     getpwuid_dir := None;
     getpwnam_dir := fun _ => None |}.

(** Two downloaders over a world that counts the invocations made so
    far: one that always returns, one whose first invocation raises. *)
Definition always_ok (ydl : gmap string opt_value) (w : nat)
    (url_list : list string) : nat * option string :=
  (S w, None).

Definition first_fails (ydl : gmap string opt_value) (w : nat)
    (url_list : list string) : nat * option string :=
  (S w, if Nat.eqb w 0 then Some "ERROR: unable to download" else None).

Definition sample_argv : list string := ["download_music.py"; "tracks.csv"].

(** A file system that holds [f] as tracks.csv and nothing else. *)
Definition fs_with (f : csv_file) : gmap string csv_file :=
  <["tracks.csv" := f]> ∅.

Definition imagine_csv : csv_file :=
  [ ["Track Name"; "Artist Name(s)"];
    ["Imagine"; "John Lennon"] ].

Definition two_tracks_csv : csv_file :=
  [ ["Track Name"; "Artist Name(s)"; "Album"];
    ["Imagine"; "John Lennon"; "Imagine"];
    ["Heroes"; "David Bowie"; "Heroes"] ].

(** The same two tracks with other columns around them. *)
Definition two_tracks_other_columns_csv : csv_file :=
  [ ["Artist Name(s)"; "Duration"; "Track Name"];
    ["John Lennon"; "183"; "Imagine"];
    [];
    ["David Bowie"; "371"; "Heroes"; "surplus"] ].




Definition short_row_csv : csv_file :=
  [ ["Track Name"; "Artist Name(s)"];
    ["Imagine"] ].


Definition no_artist_csv : csv_file :=
  [ ["Track Name"; "Album"];
    ["Imagine"; "Imagine"] ].

Definition first_track_csv : csv_file :=
  [ ["Track Name"; "Artist Name(s)"; "Album"];
    ["Imagine"; "John Lennon"; "Imagine"] ].

Definition second_track_csv : csv_file :=
  [ ["Track Name"; "Artist Name(s)"; "Album"];
    ["Heroes"; "David Bowie"; "Heroes"] ].

Definition two_tracks_blank_csv : csv_file :=
  [ ["Track Name"; "Artist Name(s)"; "Album"];
    ["Imagine"; "John Lennon"; "Imagine"];
    [];
    ["Heroes"; "David Bowie"; "Heroes"] ].

(** A process environment whose [$HOME] ends with a slash. *)
Definition slash_env : environment :=
  {| environ_HOME := Some "/home/user/";
     getpwuid_dir := None;
     getpwnam_dir := fun _ => None |}.

(** A cell of 131073 characters, one more than the field size limit. *)
Definition long_cell : string :=
  N.iter 131073 (String "a") EmptyString.

Definition two_tracks_long_album_csv : csv_file :=
  [ ["Track Name"; "Artist Name(s)"; "Album"];
    ["Imagine"; "John Lennon"; "Imagine"];
    ["Heroes"; "David Bowie"; long_cell] ].

(** A tree that holds [f] as the regular file tracks.csv, beside a
    directory Music. *)
Definition tree_with (f : file_text) : gmap string node :=
  <["Music" := Dir]> (<["tracks.csv" := File f]> ∅).

Definition os_with (f : file_text) : filesystem := posix_open (tree_with f).

Definition not_dir_argv : list string := ["download_music.py"; "tracks.csv/x"].

Definition dir_argv : list string := ["download_music.py"; "Music"].

Definition absent_argv : list string := ["download_music.py"; "Music/tracks.csv"].

(** ** Facts about the row dictionaries *)

Lemma zip_keys_take (fieldnames record : list string) :
  (zip fieldnames record).*1 = take (length record) fieldnames.
Proof.
  revert record; induction fieldnames as [|k ks IH]; intros [|c cs]; simpl; try done.
  by rewrite IH.
Qed.

Lemma cells_lookup_is_Some (l : list (string * string))
    (d : gmap string (option string)) (c : string) :
  is_Some (foldl (fun d kv => <[kv.1 := Some kv.2]> d) d l !! c)
  ↔ c ∈ l.*1 ∨ is_Some (d !! c).
Proof.
  revert d; induction l as [|[k v] l IH]; intros d; simpl.
  - rewrite elem_of_nil. tauto.
  - rewrite IH, elem_of_cons. destruct (decide (k = c)) as [->|Hne].
    + rewrite lookup_insert_eq. split; [intros _|intros _]; eauto.
    + rewrite lookup_insert_ne by done. split; intros [?|?]; auto.
      destruct H; [congruence | auto].
Qed.

Lemma restval_lookup_is_Some (ks : list string)
    (d : gmap string (option string)) (c : string) :
  is_Some (foldl (fun d key => <[key := None]> d) d ks !! c)
  ↔ c ∈ ks ∨ is_Some (d !! c).
Proof.
  revert d; induction ks as [|k ks IH]; intros d; simpl.
  - rewrite elem_of_nil. tauto.
  - rewrite IH, elem_of_cons. destruct (decide (k = c)) as [->|Hne].
    + rewrite lookup_insert_eq. split; [intros _|intros _]; eauto.
    + rewrite lookup_insert_ne by done. split; intros [?|?]; auto.
      destruct H; [congruence | auto].
Qed.

(** The string keys of a row are exactly the field names of the header,
    whatever the length of the record. *)
Lemma make_row_lookup_is_Some (fieldnames record : list string) (c : string) :
  is_Some (row_fields (make_row fieldnames record) !! c) ↔ c ∈ fieldnames.
Proof.
  unfold make_row. case_decide as Hlen; simpl.
  - unfold dict_zip. rewrite cells_lookup_is_Some, zip_keys_take, lookup_empty.
    rewrite take_ge by lia. split; [intros [?|[? ?]]; [done|congruence] | auto].
  - rewrite restval_lookup_is_Some. unfold dict_zip.
    rewrite cells_lookup_is_Some, zip_keys_take, lookup_empty.
    assert (c ∈ fieldnames ↔ c ∈ take (length record) fieldnames
                             ∨ c ∈ drop (length record) fieldnames) as ->
      by (by rewrite <- elem_of_app, take_drop).
    split.
    + intros [?|[?|[? ?]]]; [auto|auto|congruence].
    + intros [?|?]; auto.
Qed.

Lemma make_row_lookup_None (fieldnames record : list string) (c : string) :
  row_fields (make_row fieldnames record) !! c = None ↔ c ∉ fieldnames.
Proof.
  rewrite <- make_row_lookup_is_Some, eq_None_not_Some. done.
Qed.

Lemma cells_lookup_notin (l : list (string * string))
    (d : gmap string (option string)) (c : string) :
  c ∉ l.*1 →
  foldl (fun d kv => <[kv.1 := Some kv.2]> d) d l !! c = d !! c.
Proof.
  revert d; induction l as [|[k v] l IH]; intros d Hnotin; simpl; [done|].
  simpl in Hnotin. apply not_elem_of_cons in Hnotin as [Hne Hnotin].
  rewrite IH by done. by rewrite lookup_insert_ne.
Qed.

Lemma restval_lookup_notin (ks : list string)
    (d : gmap string (option string)) (c : string) :
  c ∉ ks → foldl (fun d key => <[key := None]> d) d ks !! c = d !! c.
Proof.
  revert d; induction ks as [|k ks IH]; intros d Hnotin; simpl; [done|].
  apply not_elem_of_cons in Hnotin as [Hne Hnotin].
  rewrite IH by done. by rewrite lookup_insert_ne.
Qed.

Lemma restval_lookup_in (ks : list string)
    (d : gmap string (option string)) (c : string) :
  c ∈ ks → foldl (fun d key => <[key := None]> d) d ks !! c = Some None.
Proof.
  revert d; induction ks as [|k ks IH]; intros d Hin; simpl.
  { by apply elem_of_nil in Hin. }
  destruct (decide (c ∈ ks)) as [Hin'|Hnotin]; [by apply IH|].
  apply elem_of_cons in Hin as [->|Hin]; [|done].
  rewrite restval_lookup_notin by done. apply lookup_insert_eq.
Qed.

(** After the cells are zipped in, a column holds the cell at its last
    position, when the record reaches that position. *)
Lemma cells_lookup_last (fieldnames record : list string)
    (d : gmap string (option string)) (c v : string) (i : nat) :
  fieldnames !! i = Some c →
  (∀ j, i < j → fieldnames !! j ≠ Some c) →
  record !! i = Some v →
  foldl (fun d kv => <[kv.1 := Some kv.2]> d) d (zip fieldnames record) !! c
    = Some (Some v).
Proof.
  revert record d i; induction fieldnames as [|k ks IH];
    intros [|x xs] d i Hi Hlast Hv; try done.
  destruct i as [|i]; simpl in *.
  - injection Hi as ->. injection Hv as ->.
    rewrite cells_lookup_notin; [apply lookup_insert_eq|].
    rewrite zip_keys_take. intros Hin.
    apply list_elem_of_lookup in Hin as [j Hj].
    apply lookup_take_Some in Hj as [Hj _].
    by apply (Hlast (S j)); [lia|].
  - apply (IH xs _ i); [done| |done].
    intros j Hj. apply (Hlast (S j)). lia.
Qed.

Lemma row_field_last_position (fieldnames record : list string)
    (c : string) (i : nat) :
  fieldnames !! i = Some c →
  (∀ j, i < j → fieldnames !! j ≠ Some c) →
  row_fields (make_row fieldnames record) !! c = Some (record !! i).
Proof.
  intros Hi Hlast. pose proof (lookup_lt_Some _ _ _ Hi) as Hlt.
  assert (i < length record → c ∉ drop (length record) fieldnames) as Hdrop.
  { intros Hlen Hin. apply list_elem_of_lookup in Hin as [j Hj].
    rewrite lookup_drop in Hj. by apply (Hlast (length record + j)); [lia|]. }
  unfold make_row. case_decide as Hlen; simpl.
  - destruct (lookup_lt_is_Some_2 record i) as [v Hv]; [lia|].
    rewrite Hv. by apply (cells_lookup_last _ _ _ _ _ i).
  - destruct (record !! i) as [v|] eqn:Hv.
    + rewrite restval_lookup_notin
        by (apply Hdrop; by eapply lookup_lt_Some).
      by apply (cells_lookup_last _ _ _ _ _ i).
    + apply restval_lookup_in. apply lookup_ge_None in Hv.
      apply list_elem_of_lookup. exists (i - length record).
      rewrite lookup_drop. by replace (length record + (i - length record)) with i by lia.
Qed.

Lemma supplies_nonblank (fieldnames record : list string) (c : string) :
  supplies fieldnames record c → record ≠ [].
Proof. intros H ->. unfold supplies in H. simpl in H. by apply elem_of_nil in H. Qed.

Lemma ytsearch_query_spec (q : string) :
  ytsearch_query ("ytsearch:" +:+ q) = Some q.
Proof. reflexivity. Qed.

Lemma output_dir_spec (env : environment) :
  output_dir env =
    match environ_HOME env, getpwuid_dir env with
    | Some h, _ | None, Some h => rstrip_sep h +:+ "/Music"
    | None, None => "~/Music"
    end.
Proof.
  unfold output_dir, expanduser. simpl.
  destruct (environ_HOME env) as [h|]; [|destruct (getpwuid_dir env) as [h|]];
    try reflexivity; by destruct (rstrip_sep h).
Qed.

(** ** Facts about a run *)

Section Run.

Context {World : Type}.
Variable ydl_download :
  gmap string opt_value -> World -> list string -> World * option string.

Local Abbreviation process := (process_row World ydl_download).
Local Abbreviation script := (download_music World ydl_download).

(** One pass through the loop body, case by case. *)
Lemma process_row_eq (ydl : gmap string opt_value) (r : row) (w : World) :
  process ydl r w =
    match row_fields r !! "Track Name" with
    | None => ([], w, inl (KeyError "Track Name"))
    | Some name =>
        match row_fields r !! "Artist Name(s)" with
        | None => ([], w, inl (KeyError "Artist Name(s)"))
        | Some artists =>
            let res := ydl_download ydl w [search_url name artists] in
            ([EPrint (progress_line name artists);
              EDownload ydl [search_url name artists] res.2],
             res.1,
             match res.2 with
             | None => inr tt
             | Some msg => inl (DownloadError msg)
             end)
        end
    end.
Proof.
  unfold process, process_row, bind, getitem, print, emit, download, ret, raise.
  destruct (row_fields r !! "Track Name") as [name|]; [|done].
  destruct (row_fields r !! "Artist Name(s)") as [artists|]; [|done].
  simpl. by destruct (ydl_download _ _ _) as [w' [msg|]].
Qed.

(** The loop over a non-empty list of rows: the body, then the rest
    unless the body raised. *)
Lemma for_each_cons (ydl : gmap string opt_value) (r : row) (rs : list row)
    (w : World) :
  for_each (r :: rs) (process ydl) w =
    match process ydl r w with
    | (t, w', inl e) => (t, w', inl e)
    | (t, w', inr _) =>
        match for_each rs (process ydl) w' with
        | (t', w'', v) => (t ++ t', w'', v)
        end
    end.
Proof. reflexivity. Qed.

(** The script, once its argument names a file that exists. *)
Lemma script_eq (env : environment) (fs : gmap string csv_file)
    (argv : list string) (path : string) (f : csv_file) (w : World) :
  argv !! 1 = Some path → fs !! path = Some f →
  script env fs argv w =
    match for_each (DictReader f) (process (ydl_opts env)) w with
    | (t, w', v) => (EYoutubeDL (ydl_opts env) :: t, w', v)
    end.
Proof.
  intros Harg Hfs.
  unfold script, download_music, bind, argv_get, YoutubeDL, open, emit, ret.
  rewrite Harg; simpl. rewrite Hfs; simpl.
  by destruct (for_each _ _ _) as [[t w'] v].
Qed.

(** C1. For every record whose two fields are strings, the loop body
    makes one download invocation, for the single URL "ytsearch:"
    followed by the search query, and that query is the artist names,
    one space, then the track name.  For the row Imagine / John Lennon
    the query is "John Lennon Imagine". *)
Theorem query_is_artists_space_name :
  (∀ (ydl : gmap string opt_value) (r : row) (name artists : string) (w : World),
     row_fields r !! "Track Name" = Some (Some name) →
     row_fields r !! "Artist Name(s)" = Some (Some artists) →
     ∃ url raised,
       downloads (trace_of (process ydl r w)) = [([url], raised)] ∧
       url = "ytsearch:" +:+ (artists +:+ " " +:+ name) ∧
       ytsearch_query url = Some (artists +:+ " " +:+ name)) ∧
  (∀ (ydl : gmap string opt_value) (w : World),
     ∃ raised,
       downloads (trace_of (process ydl
         (make_row ["Track Name"; "Artist Name(s)"] ["Imagine"; "John Lennon"]) w))
         = [(["ytsearch:John Lennon Imagine"], raised)] ∧
       ytsearch_query "ytsearch:John Lennon Imagine" = Some "John Lennon Imagine").
Proof.
  assert (∀ ydl r name artists w,
     row_fields r !! "Track Name" = Some (Some name) →
     row_fields r !! "Artist Name(s)" = Some (Some artists) →
     ∃ url raised,
       downloads (trace_of (process ydl r w)) = [([url], raised)] ∧
       url = "ytsearch:" +:+ (artists +:+ " " +:+ name) ∧
       ytsearch_query url = Some (artists +:+ " " +:+ name)) as Hgen.
  { intros ydl r name artists w Hn Ha.
    rewrite process_row_eq, Hn, Ha.
    eexists _, _. split; [reflexivity|]. split; [reflexivity|].
    apply ytsearch_query_spec. }
  split; [exact Hgen|].
  intros ydl w.
  destruct (Hgen ydl (make_row ["Track Name"; "Artist Name(s)"]
                        ["Imagine"; "John Lennon"]) "Imagine" "John Lennon" w)
    as (url & raised & Hd & -> & Hq); [reflexivity..|].
  exists raised. split; [exact Hd | exact Hq].
Qed.

Lemma downloads_youtubedl (p : gmap string opt_value) (t : list event) :
  downloads (EYoutubeDL p :: t) = downloads t.
Proof. reflexivity. Qed.

Lemma downloads_print (l : string) (t : list event) :
  downloads (EPrint l :: t) = downloads t.
Proof. reflexivity. Qed.

Lemma downloads_download (p : gmap string opt_value) (us : list string)
    (raised : option string) (t : list event) :
  downloads (EDownload p us raised :: t) = (us, raised) :: downloads t.
Proof. reflexivity. Qed.

(** When every row has both keys and every download invocation of the
    run returned, the loop makes one invocation per row and ends
    normally. *)
Lemma for_each_all_returned (ydl : gmap string opt_value) (rows : list row)
    (w : World) :
  Forall (fun r => is_Some (row_fields r !! "Track Name") ∧
                   is_Some (row_fields r !! "Artist Name(s)")) rows →
  (∀ p us raised,
     EDownload p us raised ∈ trace_of (for_each rows (process ydl) w) →
     raised = None) →
  length (downloads (trace_of (for_each rows (process ydl) w))) = length rows ∧
  result_of (for_each rows (process ydl) w) = inr tt.
Proof.
  intros Hall; revert w.
  induction Hall as [|r rs [[name Hn] [artists Ha]] _ IH]; intros w Hok; [done|].
  revert Hok. rewrite for_each_cons, process_row_eq, Hn, Ha. simpl.
  destruct (ydl_download ydl w _) as [w' [msg|]]; simpl.
  - intros Hok. exfalso.
    assert (Some msg = None) as Habs; [|discriminate Habs].
    apply (Hok ydl [search_url name artists]).
    unfold trace_of; simpl. apply elem_of_cons; right. apply elem_of_cons; by left.
  - specialize (IH w').
    destruct (for_each rs (process ydl) w') as [[t' w''] v].
    unfold trace_of, result_of in *; simpl in *. intros Hok.
    destruct IH as [IHlen IHres].
    { intros p us raised Hin. apply (Hok p us raised).
      by do 2 (apply elem_of_cons; right). }
    split; [|done]. by rewrite IHlen.
Qed.

(** On a well-formed file that is read to its end, when every download
    invocation of the run returns, there are as many invocations as
    data rows. *)
Lemma downloads_equal_data_rows (env : environment)
    (fs : gmap string csv_file) (argv : list string) (path : string)
    (f : csv_file) (w : World) :
  argv !! 1 = Some path → fs !! path = Some f →
  well_formed f →
  (∀ ydl us raised,
     EDownload ydl us raised ∈ trace_of (script env fs argv w) →
     raised = None) →
  length (downloads (trace_of (script env fs argv w))) = length (data_rows f).
Proof.
  intros Harg Hfs Hwf. rewrite (script_eq env fs argv path f w Harg Hfs).
  destruct f as [|header records]; [done|].
  destruct Hwf as (Ht & Ha & Hrows). simpl.
  assert (filter (fun r : list string => r ≠ []) records = records) as ->.
  { clear -Hrows. induction Hrows as [|r rs [Hs _] _ IH]; [done|].
    rewrite filter_cons_True by (by eapply supplies_nonblank). by rewrite IH. }
  pose proof (for_each_all_returned (ydl_opts env)
                (make_row header <$> records) w) as Hloop.
  destruct (for_each _ _ w) as [[t w'] v].
  unfold trace_of, result_of in *; simpl in *. intros Hok.
  destruct Hloop as [Hlen _].
  - apply Forall_fmap, Forall_forall. intros r _. simpl.
    by rewrite !make_row_lookup_is_Some.
  - intros p us raised Hin. apply (Hok p us raised).
    by apply elem_of_cons; right.
  - by rewrite downloads_youtubedl, Hlen, length_fmap.
Qed.



(** C5, amended. The loop raises a missing-field error (KeyError) on a
    data row exactly when the header row lacks "Track Name" or
    "Artist Name(s)".  A row with fewer fields than the header raises
    no missing-field error: when the header names both columns, the
    download is invoked whatever the length of the record, and a field
    the record is too short for is rendered as None in the query. *)
Theorem missing_field_error_iff_header_lacks_column
    (ydl : gmap string opt_value) (fieldnames record : list string) (w : World) :
  ((∃ key, result_of (process ydl (make_row fieldnames record) w)
           = inl (KeyError key))
   ↔ ("Track Name" ∉ fieldnames ∨ "Artist Name(s)" ∉ fieldnames)) ∧
  ("Track Name" ∈ fieldnames ∧ "Artist Name(s)" ∈ fieldnames →
   ∃ url raised,
     downloads (trace_of (process ydl (make_row fieldnames record) w))
     = [([url], raised)]) ∧
    (∀ name : string, ∃ raised,
     downloads (trace_of (process ydl
       (make_row ["Track Name"; "Artist Name(s)"] [name]) w))
     = [(["ytsearch:None " +:+ name], raised)]) ∧
  (∀ i j : nat,
     fieldnames !! i = Some "Track Name" →
     (∀ k, i < k → fieldnames !! k ≠ Some "Track Name") →
     fieldnames !! j = Some "Artist Name(s)" →
     (∀ k, j < k → fieldnames !! k ≠ Some "Artist Name(s)") →
     ∃ raised,
       downloads (trace_of (process ydl (make_row fieldnames record) w))
       = [(["ytsearch:" +:+ format_field (record !! j) +:+ " "
            +:+ format_field (record !! i)], raised)]).
Proof.
  split; [|split; [|split]].
  - rewrite process_row_eq.
    destruct (row_fields (make_row fieldnames record) !! "Track Name")
      as [name|] eqn:Hn.
    + assert ("Track Name" ∈ fieldnames) as Hin
        by (apply (make_row_lookup_is_Some fieldnames record); rewrite Hn; eauto).
      destruct (row_fields (make_row fieldnames record) !! "Artist Name(s)")
        as [artists|] eqn:Ha.
      * assert ("Artist Name(s)" ∈ fieldnames) as Hin'
          by (apply (make_row_lookup_is_Some fieldnames record); rewrite Ha; eauto).
        unfold result_of; simpl. split.
        -- intros [key Hk]. by destruct (ydl_download _ _ _).2.
        -- intros [?|?]; done.
      * apply make_row_lookup_None in Ha. split; eauto.
    + apply make_row_lookup_None in Hn. split; eauto.
  - intros [Ht Ha].
    apply (make_row_lookup_is_Some fieldnames record) in Ht as [name Hn].
    apply (make_row_lookup_is_Some fieldnames record) in Ha as [artists Ha].
    rewrite process_row_eq, Hn, Ha. by eexists _, _.
  - intros name. rewrite process_row_eq. by eexists.
  - intros i j Hi Hlasti Hj Hlastj. rewrite process_row_eq.
    rewrite (row_field_last_position fieldnames record _ i Hi Hlasti).
    rewrite (row_field_last_position fieldnames record _ j Hj Hlastj).
    by eexists.
Qed.

(** The k-th download invocation of the loop is the one for the k-th
    row. *)
Lemma for_each_download_order (ydl : gmap string opt_value) (rows : list row)
    (w : World) (k : nat) (us : list string) (raised : option string) :
  downloads (trace_of (for_each rows (process ydl) w)) !! k = Some (us, raised) →
  ∃ r name artists,
    rows !! k = Some r ∧
    row_fields r !! "Track Name" = Some name ∧
    row_fields r !! "Artist Name(s)" = Some artists ∧
    us = [search_url name artists].
Proof.
  revert w k; induction rows as [|r rs IH]; intros w k; [done|].
  rewrite for_each_cons, process_row_eq.
  destruct (row_fields r !! "Track Name") as [name|] eqn:Hn; [|done].
  destruct (row_fields r !! "Artist Name(s)") as [artists|] eqn:Ha; [|done].
  simpl. destruct (ydl_download ydl w _) as [w' [msg|]]; simpl.
  - destruct k as [|[|k]]; [|done..]. intros [= <- <-]. by exists r, name, artists.
  - specialize (IH w').
    destruct (for_each rs (process ydl) w') as [[t' w''] v].
    unfold trace_of in *; simpl in *.
    rewrite downloads_print, downloads_download.
    destruct k as [|k]; simpl.
    + intros [= <- <-]. by exists r, name, artists.
    + apply IH.
Qed.

(** A download invocation that raised is the last event of the loop,
    and the loop ends with its error. *)
Lemma for_each_failed_last (ydl : gmap string opt_value) (rows : list row)
    (w : World) (t1 t2 : list event) (p : gmap string opt_value)
    (us : list string) (msg : string) :
  trace_of (for_each rows (process ydl) w)
    = t1 ++ EDownload p us (Some msg) :: t2 →
  t2 = [] ∧ result_of (for_each rows (process ydl) w) = inl (DownloadError msg).
Proof.
  revert w t1; induction rows as [|r rs IH]; intros w t1.
  { by destruct t1. }
  rewrite for_each_cons, process_row_eq.
  destruct (row_fields r !! "Track Name") as [name|]; [|by destruct t1].
  destruct (row_fields r !! "Artist Name(s)") as [artists|]; [|by destruct t1].
  simpl. destruct (ydl_download ydl w _) as [w' [msg'|]]; simpl.
  - destruct t1 as [|e [|e' t1]]; unfold trace_of, result_of; simpl;
      intros [= ]; subst; [done|by destruct t1].
  - specialize (IH w').
    destruct (for_each rs (process ydl) w') as [[t' w''] v].
    unfold trace_of, result_of in *; simpl in *.
    destruct t1 as [|e [|e' t1]]; simpl; intros [= ]; subst.
    by apply (IH t1).
Qed.

(** The download invocations of the loop run one after the other on
    the world: each starts where the one before ended. *)
Lemma for_each_threaded (ydl : gmap string opt_value) (rows : list row)
    (w : World) :
  threaded World ydl_download w (trace_of (for_each rows (process ydl) w)) ∧
  world_of (for_each rows (process ydl) w)
    = replay World ydl_download w (trace_of (for_each rows (process ydl) w)).
Proof.
  revert w; induction rows as [|r rs IH]; intros w; [done|].
  rewrite for_each_cons, process_row_eq.
  destruct (row_fields r !! "Track Name") as [name|]; [|done].
  destruct (row_fields r !! "Artist Name(s)") as [artists|]; [|done].
  simpl. destruct (ydl_download ydl w _) as [w' [msg|]] eqn:Hd; simpl.
  - unfold trace_of, world_of; simpl. by rewrite Hd.
  - specialize (IH w').
    destruct (for_each rs (process ydl) w') as [[t' w''] v].
    unfold trace_of, world_of in *; simpl in *.
    rewrite Hd; simpl. by destruct IH.
Qed.

(** The loop only prints and calls [download] on the object it was
    given. *)
Lemma for_each_events (ydl : gmap string opt_value) (rows : list row)
    (w : World) (e : event) :
  e ∈ trace_of (for_each rows (process ydl) w) →
  (∃ l, e = EPrint l) ∨ (∃ us raised, e = EDownload ydl us raised).
Proof.
  revert w; induction rows as [|r rs IH]; intros w.
  { intros H. by apply elem_of_nil in H. }
  rewrite for_each_cons, process_row_eq.
  destruct (row_fields r !! "Track Name") as [name|];
    [|intros H; by apply elem_of_nil in H].
  destruct (row_fields r !! "Artist Name(s)") as [artists|];
    [|intros H; by apply elem_of_nil in H].
  simpl. destruct (ydl_download ydl w _) as [w' [msg|]]; simpl.
  - unfold trace_of; simpl. rewrite !elem_of_cons, elem_of_nil.
    intros [->|[->|[]]]; eauto.
  - specialize (IH w').
    destruct (for_each rs (process ydl) w') as [[t' w''] v].
    unfold trace_of in *; simpl in *. rewrite !elem_of_cons.
    intros [->|[->|?]]; eauto.
Qed.


(** The loop over [rows1 ++ rows2]: the loop over [rows1], then, unless
    it raised, the loop over [rows2] from the world it left. *)
Lemma for_each_app (ydl : gmap string opt_value) (rows1 rows2 : list row)
    (w : World) :
  for_each (rows1 ++ rows2) (process ydl) w =
    match for_each rows1 (process ydl) w with
    | (t, w', inl e) => (t, w', inl e)
    | (t, w', inr _) =>
        match for_each rows2 (process ydl) w' with
        | (t', w'', v) => (t ++ t', w'', v)
        end
    end.
Proof.
  revert w; induction rows1 as [|r rs IH]; intros w.
  { simpl. unfold ret. by destruct (for_each rows2 _ w) as [[t' w''] v]. }
  rewrite <- app_comm_cons, !for_each_cons.
  destruct (process ydl r w) as [[t w'] [e|[]]]; [done|].
  rewrite IH. destruct (for_each rs (process ydl) w') as [[t1 w1] [e|[]]]; [done|].
  destruct (for_each rows2 (process ydl) w1) as [[t2 w2] v].
  by rewrite app_assoc.
Qed.


(** C7. The download invocations are made one after the other in the
    order of the rows: the k-th invocation is the one for the k-th
    row, it starts in the world the invocation before it left and ends
    the way the downloader ends there; and when an invocation fails,
    it is the last event of the run (no download is attempted for a
    later row) and the run ends with its error. *)
Theorem downloads_sequential_in_row_order (env : environment)
    (fs : gmap string csv_file) (argv : list string) (path : string)
    (f : csv_file) (w : World) :
  argv !! 1 = Some path → fs !! path = Some f →
  (∀ k us raised,
     downloads (trace_of (script env fs argv w)) !! k = Some (us, raised) →
     ∃ r name artists,
       DictReader f !! k = Some r ∧
       row_fields r !! "Track Name" = Some name ∧
       row_fields r !! "Artist Name(s)" = Some artists ∧
       us = [search_url name artists]) ∧
  (∀ t1 t2 p us msg,
     trace_of (script env fs argv w) = t1 ++ EDownload p us (Some msg) :: t2 →
     t2 = [] ∧ result_of (script env fs argv w) = inl (DownloadError msg)) ∧
  threaded World ydl_download w (trace_of (script env fs argv w)) ∧
  world_of (script env fs argv w)
    = replay World ydl_download w (trace_of (script env fs argv w)).
Proof.
  intros Harg Hfs. rewrite (script_eq env fs argv path f w Harg Hfs).
  pose proof (for_each_download_order (ydl_opts env) (DictReader f) w) as Horder.
  pose proof (for_each_failed_last (ydl_opts env) (DictReader f) w) as Hlast.
  pose proof (for_each_threaded (ydl_opts env) (DictReader f) w) as Hthr.
  destruct (for_each (DictReader f) (process (ydl_opts env)) w) as [[t w'] v].
  unfold trace_of, result_of, world_of in *; simpl in *.
  split; [|split].
  - intros k us raised. rewrite downloads_youtubedl. apply Horder.
  - intros [|e t1] t2 p us msg; simpl; intros [= ]; subst. by eapply Hlast.
  - done.
Qed.

(** C8. The options dictionary has exactly the keys format,
    postprocessors and outtmpl: best audio, one post-processing step
    that extracts audio with mp3 as the codec, and a template that
    names the files "<title>.<ext>" in the Music directory under the
    home directory.  Every downloader object of a run is built with
    this dictionary and every download invocation is made on it. *)
Theorem ydl_opts_fixed (env : environment) (fs : gmap string csv_file)
    (argv : list string) (w : World) :
  dom (ydl_opts env) = {[ "format"; "postprocessors"; "outtmpl" ]} ∧
  ydl_opts env !! "format" = Some (OStr "bestaudio/best") ∧
  (∃ step : gmap string string,
     ydl_opts env !! "postprocessors" = Some (ODicts [step]) ∧
     dom step = {[ "key"; "preferredcodec" ]} ∧
     step !! "key" = Some "FFmpegExtractAudio" ∧
     step !! "preferredcodec" = Some "mp3") ∧
  ydl_opts env !! "outtmpl"
    = Some (OStr (output_dir env +:+ "/%(title)s.%(ext)s")) ∧
  output_dir env =
    match environ_HOME env, getpwuid_dir env with
    | Some h, _ | None, Some h => rstrip_sep h +:+ "/Music"
    | None, None => "~/Music"
    end ∧
  (∀ p, EYoutubeDL p ∈ trace_of (script env fs argv w) → p = ydl_opts env) ∧
  (∀ p us raised,
     EDownload p us raised ∈ trace_of (script env fs argv w) →
     p = ydl_opts env).
Proof.
  split; [|split; [|split; [|split; [|split]]]].
  - unfold ydl_opts. rewrite !dom_insert_L, dom_empty_L. set_solver.
  - reflexivity.
  - eexists. split; [reflexivity|]. split; [|split; reflexivity].
    rewrite !dom_insert_L, dom_empty_L. set_solver.
  - reflexivity.
  - apply output_dir_spec.
  - assert (∀ e, e ∈ trace_of (script env fs argv w) →
                 e = EYoutubeDL (ydl_opts env) ∨ (∃ l, e = EPrint l) ∨
                 ∃ us raised, e = EDownload (ydl_opts env) us raised) as Hev.
    { intros e. destruct (argv !! 1) as [path|] eqn:Harg.
      - destruct (fs !! path) as [f|] eqn:Hfs.
        + rewrite (script_eq env fs argv path f w Harg Hfs).
          pose proof (for_each_events (ydl_opts env) (DictReader f) w e) as Hloop.
          destruct (for_each _ _ w) as [[t w'] v].
          unfold trace_of in *; simpl in *. rewrite elem_of_cons.
          intros [->|Hin]; [by left | right; by apply Hloop].
        + unfold script, download_music, bind, argv_get, YoutubeDL, open,
            emit, ret, raise, trace_of.
          rewrite Harg; simpl. rewrite Hfs; simpl.
          rewrite elem_of_cons, elem_of_nil. intros [->|[]]. by left.
      - unfold script, download_music, bind, argv_get, raise, trace_of.
        rewrite Harg; simpl. intros H. by apply elem_of_nil in H. }
    split.
    + intros p Hin. by destruct (Hev _ Hin) as [[= ->]|[[l [= ]]|(us & r & [= ])]].
    + intros p us raised Hin.
      by destruct (Hev _ Hin) as [[= ]|[[l [= ]]|(us' & r' & [= -> _ _])]].
Qed.


(** Rows that agree on the two columns are processed alike. *)
Lemma for_each_agree (ydl : gmap string opt_value) (rows1 rows2 : list row)
    (w : World) :
  Forall2 agree rows1 rows2 →
  for_each rows1 (process ydl) w = for_each rows2 (process ydl) w.
Proof.
  intros Hag; revert w.
  induction Hag as [|r1 r2 rs1 rs2 [Hn Ha] _ IH]; intros w; [done|].
  rewrite !for_each_cons, !process_row_eq, Hn, Ha.
  destruct (row_fields r2 !! "Track Name") as [name|]; [|done].
  destruct (row_fields r2 !! "Artist Name(s)") as [artists|]; [|done].
  simpl. destruct (ydl_download ydl w _) as [w' [msg|]]; simpl; [done|].
  by rewrite IH.
Qed.

End Run.

(** ** The script on the sample inputs *)

Example run_two_tracks :
  download_music nat always_ok sample_env (fs_with two_tracks_csv) sample_argv 0
  = ([EYoutubeDL (ydl_opts sample_env);
      EPrint "Downloading: John Lennon - Imagine";
      EDownload (ydl_opts sample_env) ["ytsearch:John Lennon Imagine"] None;
      EPrint "Downloading: David Bowie - Heroes";
      EDownload (ydl_opts sample_env) ["ytsearch:David Bowie Heroes"] None],
     2, inr tt).
Proof. reflexivity. Qed.

Example run_first_fails :
  download_music nat first_fails sample_env (fs_with two_tracks_csv) sample_argv 0
  = ([EYoutubeDL (ydl_opts sample_env);
      EPrint "Downloading: John Lennon - Imagine";
      EDownload (ydl_opts sample_env) ["ytsearch:John Lennon Imagine"]
        (Some "ERROR: unable to download")],
     1, inl (DownloadError "ERROR: unable to download")).
Proof. reflexivity. Qed.

Example run_without_argument :
  download_music nat always_ok sample_env (fs_with imagine_csv)
    ["download_music.py"] 0
  = ([], 0, inl IndexError).
Proof. reflexivity. Qed.

Example run_empty_file :
  download_music nat always_ok sample_env (fs_with []) sample_argv 0
  = ([EYoutubeDL (ydl_opts sample_env)], 0, inr tt).
Proof. reflexivity. Qed.

Example sample_output_template :
  ydl_opts sample_env !! "outtmpl"
  = Some (OStr "/home/user/Music/%(title)s.%(ext)s").
Proof. reflexivity. Qed.

(** A duplicated column takes its last cell, and [None] when the record
    ends before it. *)
Example duplicate_column_last_wins :
  row_fields (make_row ["Track Name"; "Artist Name(s)"; "Track Name"]
                       ["first"; "artist"; "last"]) !! "Track Name"
    = Some (Some "last") ∧
  row_fields (make_row ["Track Name"; "Artist Name(s)"; "Track Name"]
                       ["first"; "artist"]) !! "Track Name"
    = Some None.
Proof. split; reflexivity. Qed.

(** ** Counterexamples to the claims as first stated *)


(** C5 as stated fails: a data row with fewer fields than the header,
    which lacks the "Artist Name(s)" column, raises no missing-field
    error; the download is made for "None Imagine" and the run ends
    normally. *)
Lemma short_row_no_missing_field_error :
(length ["Imagine"] < length ["Track Name"; "Artist Name(s)"]) ∧
  ¬ supplies ["Track Name"; "Artist Name(s)"] ["Imagine"] "Artist Name(s)" ∧
  download_music nat always_ok sample_env (fs_with short_row_csv) sample_argv 0
  = ([EYoutubeDL (ydl_opts sample_env);
      EPrint "Downloading: None - Imagine";
      EDownload (ydl_opts sample_env) ["ytsearch:None Imagine"] None],
     1, inr tt).
Proof.
  split; [simpl; lia|]. split; [|reflexivity].
  unfold supplies; simpl. rewrite elem_of_cons, elem_of_nil. by intros [[= ]|[]].
Qed.

(** ** The theorems at the sample inputs *)

Lemma well_formed_two_tracks : well_formed two_tracks_csv.
Proof.
  unfold well_formed, two_tracks_csv, supplies; simpl.
  repeat first [ split | apply Forall_cons | apply Forall_nil ]; set_solver.
Qed.

Lemma query_is_artists_space_name_witness :
  row_fields (make_row ["Track Name"; "Artist Name(s)"] ["Imagine"; "John Lennon"])
    !! "Track Name" = Some (Some "Imagine") ∧
  row_fields (make_row ["Track Name"; "Artist Name(s)"] ["Imagine"; "John Lennon"])
    !! "Artist Name(s)" = Some (Some "John Lennon") ∧
  ∃ url raised,
    downloads (trace_of (process_row nat always_ok (ydl_opts sample_env)
      (make_row ["Track Name"; "Artist Name(s)"] ["Imagine"; "John Lennon"]) 0))
      = [([url], raised)] ∧
    url = "ytsearch:" +:+ ("John Lennon" +:+ " " +:+ "Imagine") ∧
    ytsearch_query url = Some ("John Lennon" +:+ " " +:+ "Imagine").
Proof.
  split; [reflexivity|]. split; [reflexivity|].
  apply (proj1 (query_is_artists_space_name always_ok)); reflexivity.
Defined.



Lemma missing_field_error_iff_header_lacks_column_witness :
  ("Track Name" ∈ ["Track Name"; "Artist Name(s)"] ∧
   "Artist Name(s)" ∈ ["Track Name"; "Artist Name(s)"]) ∧
  ∃ url raised,
    downloads (trace_of (process_row nat always_ok (ydl_opts sample_env)
      (make_row ["Track Name"; "Artist Name(s)"] ["Imagine"]) 0))
    = [([url], raised)].
Proof.
  assert ("Track Name" ∈ ["Track Name"; "Artist Name(s)"] ∧
          "Artist Name(s)" ∈ ["Track Name"; "Artist Name(s)"]) as Hcols.
  { split; rewrite !elem_of_cons; auto. }
  split; [exact Hcols|].
  apply (proj1 (proj2 (missing_field_error_iff_header_lacks_column always_ok
           (ydl_opts sample_env) ["Track Name"; "Artist Name(s)"] ["Imagine"] 0))).
  exact Hcols.
Defined.

Lemma downloads_sequential_in_row_order_witness :
  sample_argv !! 1 = Some "tracks.csv" ∧
  fs_with two_tracks_csv !! "tracks.csv" = Some two_tracks_csv ∧
  let run := download_music nat first_fails sample_env
               (fs_with two_tracks_csv) sample_argv 0 in
  (∀ k us raised,
     downloads (trace_of run) !! k = Some (us, raised) →
     ∃ r name artists,
       DictReader two_tracks_csv !! k = Some r ∧
       row_fields r !! "Track Name" = Some name ∧
       row_fields r !! "Artist Name(s)" = Some artists ∧
       us = [search_url name artists]) ∧
  (∀ t1 t2 p us msg,
     trace_of run = t1 ++ EDownload p us (Some msg) :: t2 →
     t2 = [] ∧ result_of run = inl (DownloadError msg)) ∧
  threaded nat first_fails 0 (trace_of run) ∧
  world_of run = replay nat first_fails 0 (trace_of run).
Proof.
  split; [reflexivity|]. split; [reflexivity|]. intros run; subst run.
  apply (downloads_sequential_in_row_order first_fails sample_env
           (fs_with two_tracks_csv) sample_argv "tracks.csv" two_tracks_csv 0);
    reflexivity.
Defined.

Lemma ydl_opts_fixed_witness :
  EDownload (ydl_opts sample_env) ["ytsearch:David Bowie Heroes"] None
    ∈ trace_of (download_music nat always_ok sample_env
                  (fs_with two_tracks_csv) sample_argv 0) ∧
  ydl_opts sample_env !! "outtmpl"
    = Some (OStr (output_dir sample_env +:+ "/%(title)s.%(ext)s")) ∧
  output_dir sample_env = "/home/user/Music".
Proof.
  split; [|split].
  - rewrite run_two_tracks. unfold trace_of; simpl.
    do 4 (apply elem_of_cons; right). apply elem_of_cons; by left.
  - apply (ydl_opts_fixed always_ok sample_env (fs_with two_tracks_csv)
             sample_argv 0).
  - apply (ydl_opts_fixed always_ok sample_env (fs_with two_tracks_csv)
             sample_argv 0).
Defined.


Lemma agree_two_tracks :
  Forall2 agree (DictReader two_tracks_csv)
                (DictReader two_tracks_other_columns_csv).
Proof. repeat constructor. Qed.

(** ** More about the row dictionaries *)

(** X1. The value a row holds for a column is read at the last position
    at which the header names that column: the cell of the record at
    that position, or [None] when the record ends before it. *)
Theorem make_row_field_at_last_position (fieldnames record : list string)
    (c : string) (i : nat) :
  fieldnames !! i = Some c →
  (∀ j, i < j → fieldnames !! j ≠ Some c) →
  row_fields (make_row fieldnames record) !! c = Some (record !! i).
Proof. apply row_field_last_position. Qed.

Lemma make_row_field_at_last_position_witness :
  ["Track Name"; "Artist Name(s)"; "Track Name"] !! 2 = Some "Track Name" ∧
  (∀ j, 2 < j →
     ["Track Name"; "Artist Name(s)"; "Track Name"] !! j ≠ Some "Track Name") ∧
  row_fields (make_row ["Track Name"; "Artist Name(s)"; "Track Name"]
                       ["first"; "artist"]) !! "Track Name"
    = Some (["first"; "artist"] !! 2).
Proof.
  assert (∀ j, 2 < j →
     ["Track Name"; "Artist Name(s)"; "Track Name"] !! j ≠ Some "Track Name")
    as Hlast.
  { intros [|[|[|j]]] Hj; [lia..|done]. }
  split; [reflexivity|]. split; [exact Hlast|].
  apply (make_row_field_at_last_position
           ["Track Name"; "Artist Name(s)"; "Track Name"] ["first"; "artist"]
           "Track Name" 2); [reflexivity | exact Hlast].
Defined.

(** X2. The string keys of a row are exactly the column names of the
    header, whatever the length of the record: a short record still has
    every column, and the cells beyond the header add no string key. *)
Theorem make_row_keys_are_header (fieldnames record : list string) :
  dom (row_fields (make_row fieldnames record)) = list_to_set fieldnames.
Proof.
  apply set_eq. intros c.
  by rewrite elem_of_dom, make_row_lookup_is_Some, elem_of_list_to_set.
Qed.

(** ** More about a run *)

Section RunMore.

Context {World : Type}.
Variable ydl_download :
  gmap string opt_value -> World -> list string -> World * option string.

Local Abbreviation process := (process_row World ydl_download).
Local Abbreviation script := (download_music World ydl_download).

(** One step of the loop on [r :: rs], with the cases of the two lookups
    and of the download laid out. *)
Ltac loop_step r w :=
  rewrite (for_each_cons ydl_download _ r _ w), (process_row_eq ydl_download _ r w);
  let name := fresh "name" in
  let artists := fresh "artists" in
  destruct (row_fields r !! "Track Name") as [name|] eqn:?;
  [destruct (row_fields r !! "Artist Name(s)") as [artists|] eqn:?;
   [cbn zeta;
    destruct (ydl_download _ w [search_url name artists]) as [? [?|]] eqn:?;
    cbn [fst snd]
   |]
  |].

Lemma printed_print (l : string) (t : list event) :
  printed (EPrint l :: t) = l :: printed t.
Proof. reflexivity. Qed.

Lemma printed_download (p : gmap string opt_value) (us : list string)
    (raised : option string) (t : list event) :
  printed (EDownload p us raised :: t) = printed t.
Proof. reflexivity. Qed.

(** X3. Without a command-line argument the script raises IndexError at
    once: no downloader is built, nothing is printed or downloaded, the
    world is untouched. *)
Theorem no_argument_raises_index_error (env : environment)
    (fs : gmap string csv_file) (argv : list string) (w : World) :
  (length argv ≤ 1)%nat →
  script env fs argv w = ([], w, inl IndexError).
Proof.
  intros Hlen. unfold download_music, bind, argv_get.
  by rewrite (lookup_ge_None_2 argv 1) by lia.
Qed.

(** X4. Whenever an argument is given, the downloader object is built
    first and exactly once, with [ydl_opts], before the input file is
    opened: also when the file does not exist. *)
Theorem downloader_constructed_once_first (env : environment)
    (fs : gmap string csv_file) (argv : list string) (path : string) (w : World) :
  argv !! 1 = Some path →
  ∃ t, trace_of (script env fs argv w) = EYoutubeDL (ydl_opts env) :: t ∧
       ∀ p, EYoutubeDL p ∉ t.
Proof.
  intros Harg. destruct (fs !! path) as [f|] eqn:Hfs.
  - rewrite (script_eq ydl_download env fs argv path f w Harg Hfs).
    pose proof (for_each_events ydl_download (ydl_opts env) (DictReader f) w)
      as Hev.
    destruct (for_each _ _ w) as [[t w'] v]. exists t. split; [done|].
    intros p Hin. by destruct (Hev _ Hin) as [[l [= ]]|(us & r & [= ])].
  - exists []. split.
    + unfold download_music, bind, argv_get, YoutubeDL, open, emit, ret, raise.
      rewrite Harg; simpl. by rewrite Hfs.
    + intros p Hin. by apply elem_of_nil in Hin.
Qed.

(** The trace of the loop is a sequence of pairs: a progress line, then
    the download invocation for the same row. *)
Lemma for_each_announced (ydl : gmap string opt_value) (rows : list row)
    (w : World) :
  trace_of (for_each rows (process ydl) w)
    = concat (zip_with (fun l d => [EPrint l; EDownload ydl d.1 d.2])
                (printed (trace_of (for_each rows (process ydl) w)))
                (downloads (trace_of (for_each rows (process ydl) w)))) ∧
  length (printed (trace_of (for_each rows (process ydl) w)))
    = length (downloads (trace_of (for_each rows (process ydl) w))) ∧
  ∀ k us raised,
    downloads (trace_of (for_each rows (process ydl) w)) !! k
      = Some (us, raised) →
    ∃ r name artists,
      rows !! k = Some r ∧
      row_fields r !! "Track Name" = Some name ∧
      row_fields r !! "Artist Name(s)" = Some artists ∧
      printed (trace_of (for_each rows (process ydl) w)) !! k
        = Some (progress_line name artists).
Proof.
  revert w; induction rows as [|r rs IH]; intros w; [done|].
  loop_step r w; try done.
  - unfold trace_of; cbn [fst snd].
    rewrite !printed_print, !printed_download, !downloads_print,
      !downloads_download.
    split; [done|]. split; [done|].
    intros [|k] us raised; [|done]. intros _. by exists r, name, artists.
  - specialize (IH w0). destruct (for_each rs (process ydl) w0) as [[t' w''] v].
    unfold trace_of in *; cbn [fst snd app] in *.
    rewrite !printed_print, !printed_download, !downloads_print,
      !downloads_download.
    destruct IH as (IHt & IHlen & IHk). split; [|split].
    + cbn [zip_with concat fst snd app]. by rewrite <- IHt.
    + simpl. by rewrite IHlen.
    + intros [|k] us raised; simpl.
      * intros _. by exists r, name, artists.
      * apply IHk.
Qed.

(** X5. Every download invocation is announced: after the construction
    of the downloader, the trace of a run is a sequence of pairs, a
    progress line followed by the download invocation, and the k-th
    progress line is "Downloading: <artists> - <name>" for the fields of
    the k-th row.  A line is printed also for the invocation that fails,
    and no line is printed without its invocation being made. *)
Theorem progress_line_before_each_download (env : environment)
    (fs : gmap string csv_file) (argv : list string) (path : string)
    (f : csv_file) (w : World) :
  argv !! 1 = Some path → fs !! path = Some f →
  trace_of (script env fs argv w)
    = EYoutubeDL (ydl_opts env)
      :: concat (zip_with
                   (fun l d => [EPrint l; EDownload (ydl_opts env) d.1 d.2])
                   (printed (trace_of (script env fs argv w)))
                   (downloads (trace_of (script env fs argv w)))) ∧
  length (printed (trace_of (script env fs argv w)))
    = length (downloads (trace_of (script env fs argv w))) ∧
  ∀ k us raised,
    downloads (trace_of (script env fs argv w)) !! k = Some (us, raised) →
    ∃ r name artists,
      DictReader f !! k = Some r ∧
      row_fields r !! "Track Name" = Some name ∧
      row_fields r !! "Artist Name(s)" = Some artists ∧
      printed (trace_of (script env fs argv w)) !! k
        = Some (progress_line name artists).
Proof.
  intros Harg Hfs. rewrite (script_eq ydl_download env fs argv path f w Harg Hfs).
  pose proof (for_each_announced (ydl_opts env) (DictReader f) w) as Hloop.
  destruct (for_each _ _ w) as [[t w'] v]. unfold trace_of in *; cbn [fst snd] in *.
  change (printed (EYoutubeDL (ydl_opts env) :: t)) with (printed t).
  change (downloads (EYoutubeDL (ydl_opts env) :: t)) with (downloads t).
  destruct Hloop as (Ht & Hlen & Hk). by rewrite <- Ht.
Qed.

(** How the loop can end: normally, with a KeyError for one of the two
    columns, or with the DownloadError of an invocation. *)
Lemma for_each_result_cases (ydl : gmap string opt_value) (rows : list row)
    (w : World) :
  result_of (for_each rows (process ydl) w) = inr tt ∨
  result_of (for_each rows (process ydl) w) = inl (KeyError "Track Name") ∨
  result_of (for_each rows (process ydl) w) = inl (KeyError "Artist Name(s)") ∨
  ∃ msg, result_of (for_each rows (process ydl) w) = inl (DownloadError msg).
Proof.
  revert w; induction rows as [|r rs IH]; intros w; [by left|].
  loop_step r w; eauto.
  specialize (IH w0). by destruct (for_each rs (process ydl) w0) as [[t' w''] v].
Qed.

(** Rows that have both keys never raise KeyError. *)
Lemma for_each_no_key_error (ydl : gmap string opt_value) (rows : list row)
    (w : World) (key : string) :
  Forall (fun r => is_Some (row_fields r !! "Track Name") ∧
                   is_Some (row_fields r !! "Artist Name(s)")) rows →
  result_of (for_each rows (process ydl) w) ≠ inl (KeyError key).
Proof.
  intros Hall; revert w.
  induction Hall as [|r rs [[n Hn] [a Ha]] _ IH]; intros w; [done|].
  loop_step r w; try done.
  specialize (IH w0). by destruct (for_each rs (process ydl) w0) as [[t' w''] v].
Qed.

(** X6. A missing column is found on the first data row or never: when
    a run ends with KeyError, the key is "Track Name" or
    "Artist Name(s)", the header of the file does not name it, and
    nothing has been printed or downloaded and the world is untouched. *)
Theorem key_error_before_anything (env : environment)
    (fs : gmap string csv_file) (argv : list string) (path : string)
    (f : csv_file) (key : string) (w : World) :
  argv !! 1 = Some path → fs !! path = Some f →
  result_of (script env fs argv w) = inl (KeyError key) →
  trace_of (script env fs argv w) = [EYoutubeDL (ydl_opts env)] ∧
  world_of (script env fs argv w) = w ∧
  (key = "Track Name" ∨ key = "Artist Name(s)") ∧
  ∃ header records, f = header :: records ∧ key ∉ header.
Proof.
  intros Harg Hfs. rewrite (script_eq ydl_download env fs argv path f w Harg Hfs).
  destruct f as [|header records]; [done|]. simpl.
  pose proof (for_each_no_key_error (ydl_opts env)
                (make_row header <$> filter (fun r => r ≠ []) records) w key)
    as Hnokey.
  destruct (filter (fun r => r ≠ []) records) as [|r0 rs]; [done|].
  revert Hnokey. rewrite fmap_cons.
  loop_step (make_row header r0) w.
  - intros Hnokey Hres. exfalso. apply Hnokey; [|done].
    assert ("Track Name" ∈ header) as Ht
      by (apply (make_row_lookup_is_Some header r0); eauto).
    assert ("Artist Name(s)" ∈ header) as Ha
      by (apply (make_row_lookup_is_Some header r0); eauto).
    apply Forall_cons. split; [by eauto|].
    apply Forall_fmap, Forall_forall. intros r _. simpl.
    by rewrite !make_row_lookup_is_Some.
  - intros Hnokey Hres. exfalso. apply Hnokey; [|].
    + assert ("Track Name" ∈ header) as Ht
        by (apply (make_row_lookup_is_Some header r0); eauto).
      assert ("Artist Name(s)" ∈ header) as Ha
        by (apply (make_row_lookup_is_Some header r0); eauto).
      apply Forall_cons. split; [by eauto|].
      apply Forall_fmap, Forall_forall. intros r _. simpl.
      by rewrite !make_row_lookup_is_Some.
    + revert Hres.
      by destruct (for_each (make_row header <$> rs) _ w0) as [[t' w''] v].
  - intros _. unfold result_of, trace_of, world_of; cbn [fst snd].
    intros [= <-]. do 3 (split; [by auto|]). exists header, records.
    split; [done|]. by apply (make_row_lookup_None header r0).
  - intros _. unfold result_of, trace_of, world_of; cbn [fst snd].
    intros [= <-]. do 3 (split; [by auto|]). exists header, records.
    split; [done|]. by apply (make_row_lookup_None header r0).
Qed.


(** A loop that ends normally has made, for each row in order, the
    download invocation for the fields of that row, and each of them
    returned. *)
Lemma for_each_completed_rows (ydl : gmap string opt_value) (rows : list row)
    (w : World) :
  result_of (for_each rows (process ydl) w) = inr tt →
  Forall2 (fun d r => ∃ name artists,
             row_fields r !! "Track Name" = Some name ∧
             row_fields r !! "Artist Name(s)" = Some artists ∧
             d = ([search_url name artists], None))
    (downloads (trace_of (for_each rows (process ydl) w))) rows.
Proof.
  revert w; induction rows as [|r rs IH]; intros w; [by constructor|].
  loop_step r w; try done.
  specialize (IH w0). destruct (for_each rs (process ydl) w0) as [[t' w''] v].
  unfold result_of, trace_of in *; cbn [fst snd app] in *.
  rewrite downloads_print, downloads_download. intros Hv.
  constructor; [by exists name, artists | by apply IH].
Qed.

(** X9. When a run ends normally, every non-blank data row of the file
    has been downloaded: the download invocations of the run are, in
    order, those for the rows of the file, one each, and every one of
    them returned. *)
Theorem normal_exit_downloaded_every_row (env : environment)
    (fs : gmap string csv_file) (argv : list string) (path : string)
    (f : csv_file) (w : World) :
  argv !! 1 = Some path → fs !! path = Some f →
  result_of (script env fs argv w) = inr tt →
  Forall2 (fun d r => ∃ name artists,
             row_fields r !! "Track Name" = Some name ∧
             row_fields r !! "Artist Name(s)" = Some artists ∧
             d = ([search_url name artists], None))
    (downloads (trace_of (script env fs argv w))) (DictReader f) ∧
  length (downloads (trace_of (script env fs argv w)))
    = length (filter (fun r => r ≠ []) (data_rows f)).
Proof.
  intros Harg Hfs. rewrite (script_eq ydl_download env fs argv path f w Harg Hfs).
  pose proof (for_each_completed_rows (ydl_opts env) (DictReader f) w) as Hrows.
  destruct (for_each _ _ w) as [[t w'] v].
  unfold result_of, trace_of in *; cbn [fst snd] in *.
  intros Hv. specialize (Hrows Hv). rewrite downloads_youtubedl.
  split; [done|]. rewrite (Forall2_length _ _ _ Hrows).
  destruct f as [|header records]; [done|]. simpl. by rewrite length_fmap.
Qed.

(** The rows of a file whose data records are two lists, one after the
    other. *)
Lemma DictReader_app (header : list string) (records1 records2 : list (list string)) :
  DictReader (header :: records1 ++ records2)
    = DictReader (header :: records1) ++ DictReader (header :: records2).
Proof. simpl. by rewrite filter_app, fmap_app. Qed.

(** X10. Blank records among the data rows are skipped: a file with a
    blank record inserted anywhere after the header gives the same run
    as the file without it. *)
Theorem blank_records_are_skipped (env : environment)
    (fs1 fs2 : gmap string csv_file) (argv : list string) (path : string)
    (header : list string) (records1 records2 : list (list string)) (w : World) :
  argv !! 1 = Some path →
  fs1 !! path = Some (header :: records1 ++ [] :: records2) →
  fs2 !! path = Some (header :: records1 ++ records2) →
  script env fs1 argv w = script env fs2 argv w.
Proof.
  intros Harg Hfs1 Hfs2.
  rewrite (script_eq ydl_download env fs1 argv path _ w Harg Hfs1).
  rewrite (script_eq ydl_download env fs2 argv path _ w Harg Hfs2).
  rewrite !DictReader_app. simpl.
  by rewrite filter_cons_False by (intros H; by apply H).
Qed.

(** X11. Processing a file is processing its first part and then, from
    the world that leaves, the rest under the same header, provided the
    first part ends normally: the progress lines and the download
    invocations are those of the two runs one after the other, and the
    run ends as the second one does. *)
Theorem split_file_runs_compose (env : environment)
    (fs fs1 fs2 : gmap string csv_file) (argv : list string) (path : string)
    (header : list string) (records1 records2 : list (list string)) (w : World) :
  argv !! 1 = Some path →
  fs !! path = Some (header :: records1 ++ records2) →
  fs1 !! path = Some (header :: records1) →
  fs2 !! path = Some (header :: records2) →
  result_of (script env fs1 argv w) = inr tt →
  downloads (trace_of (script env fs argv w))
    = downloads (trace_of (script env fs1 argv w))
      ++ downloads (trace_of (script env fs2 argv
                                (world_of (script env fs1 argv w)))) ∧
  printed (trace_of (script env fs argv w))
    = printed (trace_of (script env fs1 argv w))
      ++ printed (trace_of (script env fs2 argv
                              (world_of (script env fs1 argv w)))) ∧
  world_of (script env fs argv w)
    = world_of (script env fs2 argv (world_of (script env fs1 argv w))) ∧
  result_of (script env fs argv w)
    = result_of (script env fs2 argv (world_of (script env fs1 argv w))).
Proof.
  intros Harg Hfs Hfs1 Hfs2.
  rewrite (script_eq ydl_download env fs argv path _ w Harg Hfs).
  rewrite (script_eq ydl_download env fs1 argv path _ w Harg Hfs1).
  rewrite DictReader_app, for_each_app.
  destruct (for_each (DictReader (header :: records1)) _ w) as [[t1 w1] [e|[]]];
    [done|].
  unfold result_of, world_of, trace_of; cbn [fst snd]. intros _.
  rewrite (script_eq ydl_download env fs2 argv path _ w1 Harg Hfs2).
  destruct (for_each (DictReader (header :: records2)) _ w1) as [[t2 w2] v].
  cbn [fst snd]. unfold downloads, printed.
  rewrite !app_comm_cons, !omap_app. done.
Qed.

(** X12. The data rows after a failure are never looked at: when the
    run on the first part of a file raises, the run on the whole file
    is the same run, whatever the later records hold. *)
Theorem rows_after_failure_ignored (env : environment)
    (fs fs1 : gmap string csv_file) (argv : list string) (path : string)
    (header : list string) (records1 records2 : list (list string))
    (e : exn) (w : World) :
  argv !! 1 = Some path →
  fs !! path = Some (header :: records1 ++ records2) →
  fs1 !! path = Some (header :: records1) →
  result_of (script env fs1 argv w) = inl e →
  script env fs argv w = script env fs1 argv w.
Proof.
  intros Harg Hfs Hfs1.
  rewrite (script_eq ydl_download env fs argv path _ w Harg Hfs).
  rewrite (script_eq ydl_download env fs1 argv path _ w Harg Hfs1).
  rewrite DictReader_app, for_each_app.
  by destruct (for_each (DictReader (header :: records1)) _ w)
    as [[t1 w1] [e'|[]]].
Qed.

(** The k-th download invocation of a run passes the search URL of some
    pair of fields. *)
Lemma download_urls_are_search_urls (env : environment)
    (fs : gmap string csv_file) (argv : list string) (path : string)
    (f : csv_file) (w : World) :
  argv !! 1 = Some path → fs !! path = Some f →
  ∀ k us raised,
    downloads (trace_of (script env fs argv w)) !! k = Some (us, raised) →
    ∃ name artists, us = [search_url name artists].
Proof.
  intros Harg Hfs k us raised.
  rewrite (script_eq ydl_download env fs argv path f w Harg Hfs).
  pose proof (for_each_download_order ydl_download (ydl_opts env)
                (DictReader f) w k us raised) as Horder.
  destruct (for_each _ _ w) as [[t w'] v]. unfold trace_of in *; cbn [fst snd] in *.
  rewrite downloads_youtubedl. intros Hk.
  destruct (Horder Hk) as (r & name & artists & _ & _ & _ & ->).
  by exists name, artists.
Qed.

(** X13. Every download invocation of a run is a search: it passes
    exactly one URL, that URL starts with the search key "ytsearch:",
    and the text searched for is not empty (it holds at least the space
    between the two fields).  A field is never passed on as a URL of
    its own, whatever it holds. *)
Theorem every_download_is_a_search (env : environment)
    (fs : gmap string csv_file) (argv : list string) (w : World) :
  ∀ p us raised,
    EDownload p us raised ∈ trace_of (script env fs argv w) →
    ∃ q, us = ["ytsearch:" +:+ q] ∧
         ytsearch_query ("ytsearch:" +:+ q) = Some q ∧
         q ≠ EmptyString.
Proof.
  intros p us raised Hin.
  assert (∃ t k d, downloads t !! k = Some d ∧ d.1 = us ∧
                   t = trace_of (script env fs argv w)) as (t & k & d & Hk & Hus & ->).
  { exists (trace_of (script env fs argv w)).
    assert ((us, raised) ∈ downloads (trace_of (script env fs argv w))) as Hd.
    { apply list_elem_of_omap. by exists (EDownload p us raised). }
    apply list_elem_of_lookup in Hd as [k Hk]. by exists k, (us, raised). }
  destruct d as [us' raised']; simpl in Hus; subst us'.
  destruct (argv !! 1) as [path|] eqn:Harg; cycle 1.
  { revert Hk. unfold download_music, bind, argv_get. by rewrite Harg. }
  destruct (fs !! path) as [f|] eqn:Hfs; cycle 1.
  { revert Hk. unfold download_music, bind, argv_get, YoutubeDL, open, emit,
      ret, raise. rewrite Harg; simpl. by rewrite Hfs. }
  destruct (download_urls_are_search_urls env fs argv path f w Harg Hfs
              k us raised' Hk) as (name & artists & ->).
  exists (format_field artists +:+ " " +:+ format_field name).
  split; [done|]. split; [apply ytsearch_query_spec|].
  by destruct (format_field artists).
Qed.

(** X14. The columns are found by name, not by position: when the
    header names "Track Name" last at position i and "Artist Name(s)"
    last at position j, and the record has cells at both positions, the
    loop body prints and searches for the cell at j, a space (" - " in
    the progress line), and the cell at i, wherever the two columns
    stand and whatever the other cells hold. *)
Theorem query_from_cells_under_named_columns (ydl : gmap string opt_value)
    (header record : list string) (i j : nat) (name artists : string) (w : World) :
  header !! i = Some "Track Name" →
  (∀ k, i < k → header !! k ≠ Some "Track Name") →
  header !! j = Some "Artist Name(s)" →
  (∀ k, j < k → header !! k ≠ Some "Artist Name(s)") →
  record !! i = Some name → record !! j = Some artists →
  ∃ raised,
    trace_of (process ydl (make_row header record) w)
    = [EPrint ("Downloading: " +:+ artists +:+ " - " +:+ name);
       EDownload ydl ["ytsearch:" +:+ artists +:+ " " +:+ name] raised].
Proof.
  intros Hi Hlasti Hj Hlastj Hn Ha.
  rewrite process_row_eq.
  rewrite (row_field_last_position header record _ i Hi Hlasti), Hn.
  rewrite (row_field_last_position header record _ j Hj Hlastj), Ha.
  by eexists.
Qed.

End RunMore.

(** ** More about the output directory *)

Lemma string_app_assoc (s1 s2 s3 : string) :
  (s1 +:+ s2) +:+ s3 = s1 +:+ (s2 +:+ s3).
Proof.
  induction s1 as [|c s IH]; [done|].
  change (String c ((s +:+ s2) +:+ s3) = String c (s +:+ (s2 +:+ s3))).
  by rewrite IH.
Qed.

(** What [rstrip_sep] removes is slashes only. *)
Lemma rstrip_sep_split (h : string) :
  ∃ tail, h = rstrip_sep h +:+ tail ∧
          Forall (fun c => c = "/"%char) (list_ascii_of_string tail).
Proof.
  induction h as [|c s (tail & Hs & Htail)]; [by exists EmptyString|].
  simpl. destruct (rstrip_sep s) as [|c' r] eqn:Hr.
  - destruct (Ascii.eqb_spec c "/") as [->|Hne].
    + exists (String "/" tail). split; [exact (f_equal (String "/") Hs)|].
      simpl. by constructor.
    + exists tail. split; [exact (f_equal (String c) Hs) | done].
  - exists tail. split; [exact (f_equal (String c) Hs) | done].
Qed.

(** What [rstrip_sep] leaves does not end with a slash. *)
Lemma rstrip_sep_no_trailing (h b : string) : rstrip_sep h ≠ b +:+ "/".
Proof.
  revert b; induction h as [|c s IH]; intros b; simpl.
  { by destruct b. }
  destruct (rstrip_sep s) as [|c' r] eqn:Hr.
  - destruct (Ascii.eqb_spec c "/") as [->|Hne]; [by destruct b|].
    destruct b as [|c0 [|c1 b]]; intros Heq; cbv in Heq; congruence.
  - destruct b as [|c0 b]; intros Heq.
    + cbv in Heq. congruence.
    + change (String c (String c' r) = String c0 (b +:+ "/")) in Heq.
      injection Heq as -> Hb. by apply (IH b).
Qed.

(** X15. When [$HOME] is set, the output directory is the home directory
    without its trailing slashes, followed by "/Music": the directory
    and the output template never hold a doubled slash at the join,
    and a home directory of "/" gives "/Music". *)
Theorem output_dir_strips_trailing_slashes (env : environment) (h : string) :
  environ_HOME env = Some h →
  ∃ base tail,
    h = base +:+ tail ∧
    Forall (fun c => c = "/"%char) (list_ascii_of_string tail) ∧
    (∀ b, base ≠ b +:+ "/") ∧
    output_dir env = base +:+ "/Music" ∧
    ydl_opts env !! "outtmpl" = Some (OStr (base +:+ "/Music/%(title)s.%(ext)s")).
Proof.
  intros Hhome. destruct (rstrip_sep_split h) as (tail & Hh & Htail).
  exists (rstrip_sep h), tail.
  assert (output_dir env = rstrip_sep h +:+ "/Music") as Hdir
    by (by rewrite output_dir_spec, Hhome).
  split; [done|]. split; [done|]. split; [apply rstrip_sep_no_trailing|].
  split; [done|]. unfold ydl_opts. rewrite lookup_insert_eq, Hdir.
  do 2 f_equal. apply string_app_assoc.
Qed.

(** ** The further theorems at the sample inputs *)

Lemma no_argument_raises_index_error_witness :
  (length ["download_music.py"] ≤ 1)%nat ∧
  download_music nat always_ok sample_env (fs_with imagine_csv)
    ["download_music.py"] 0 = ([], 0, inl IndexError).
Proof.
  split; [simpl; lia|].
  apply (no_argument_raises_index_error always_ok sample_env
           (fs_with imagine_csv) ["download_music.py"] 0).
  simpl; lia.
Defined.

Lemma downloader_constructed_once_first_witness :
  sample_argv !! 1 = Some "tracks.csv" ∧
  ∃ t, trace_of (download_music nat always_ok sample_env ∅ sample_argv 0)
         = EYoutubeDL (ydl_opts sample_env) :: t ∧
       ∀ p, EYoutubeDL p ∉ t.
Proof.
  split; [reflexivity|].
  apply (downloader_constructed_once_first always_ok sample_env ∅ sample_argv
           "tracks.csv" 0).
  reflexivity.
Defined.

Lemma progress_line_before_each_download_witness :
  sample_argv !! 1 = Some "tracks.csv" ∧
  fs_with two_tracks_csv !! "tracks.csv" = Some two_tracks_csv ∧
  length (printed (trace_of (download_music nat first_fails sample_env
                               (fs_with two_tracks_csv) sample_argv 0)))
  = length (downloads (trace_of (download_music nat first_fails sample_env
                                   (fs_with two_tracks_csv) sample_argv 0))).
Proof.
  split; [reflexivity|]. split; [reflexivity|].
  apply (progress_line_before_each_download first_fails sample_env
           (fs_with two_tracks_csv) sample_argv "tracks.csv" two_tracks_csv 0);
    reflexivity.
Defined.

Lemma key_error_before_anything_witness :
  sample_argv !! 1 = Some "tracks.csv" ∧
  fs_with no_artist_csv !! "tracks.csv" = Some no_artist_csv ∧
  result_of (download_music nat always_ok sample_env (fs_with no_artist_csv)
               sample_argv 0) = inl (KeyError "Artist Name(s)") ∧
  trace_of (download_music nat always_ok sample_env (fs_with no_artist_csv)
              sample_argv 0) = [EYoutubeDL (ydl_opts sample_env)].
Proof.
  split; [reflexivity|]. split; [reflexivity|]. split; [reflexivity|].
  apply (key_error_before_anything always_ok sample_env (fs_with no_artist_csv)
           sample_argv "tracks.csv" no_artist_csv "Artist Name(s)" 0);
    reflexivity.
Defined.


Lemma normal_exit_downloaded_every_row_witness :
  sample_argv !! 1 = Some "tracks.csv" ∧
  fs_with two_tracks_blank_csv !! "tracks.csv" = Some two_tracks_blank_csv ∧
  result_of (download_music nat always_ok sample_env
               (fs_with two_tracks_blank_csv) sample_argv 0) = inr tt ∧
  length (downloads (trace_of (download_music nat always_ok sample_env
                                 (fs_with two_tracks_blank_csv) sample_argv 0)))
    = length (filter (fun r => r ≠ []) (data_rows two_tracks_blank_csv)).
Proof.
  split; [reflexivity|]. split; [reflexivity|]. split; [reflexivity|].
  apply (normal_exit_downloaded_every_row always_ok sample_env
           (fs_with two_tracks_blank_csv) sample_argv "tracks.csv"
           two_tracks_blank_csv 0);
    reflexivity.
Defined.

Lemma blank_records_are_skipped_witness :
  sample_argv !! 1 = Some "tracks.csv" ∧
  fs_with two_tracks_blank_csv !! "tracks.csv"
    = Some (["Track Name"; "Artist Name(s)"; "Album"]
            :: [ ["Imagine"; "John Lennon"; "Imagine"] ]
               ++ [] :: [ ["Heroes"; "David Bowie"; "Heroes"] ]) ∧
  fs_with two_tracks_csv !! "tracks.csv"
    = Some (["Track Name"; "Artist Name(s)"; "Album"]
            :: [ ["Imagine"; "John Lennon"; "Imagine"] ]
               ++ [ ["Heroes"; "David Bowie"; "Heroes"] ]) ∧
  download_music nat always_ok sample_env (fs_with two_tracks_blank_csv)
    sample_argv 0
  = download_music nat always_ok sample_env (fs_with two_tracks_csv)
      sample_argv 0.
Proof.
  split; [reflexivity|]. split; [reflexivity|]. split; [reflexivity|].
  apply (blank_records_are_skipped always_ok sample_env
           (fs_with two_tracks_blank_csv) (fs_with two_tracks_csv) sample_argv
           "tracks.csv" ["Track Name"; "Artist Name(s)"; "Album"]
           [ ["Imagine"; "John Lennon"; "Imagine"] ]
           [ ["Heroes"; "David Bowie"; "Heroes"] ] 0);
    reflexivity.
Defined.

Lemma split_file_runs_compose_witness :
  sample_argv !! 1 = Some "tracks.csv" ∧
  fs_with two_tracks_csv !! "tracks.csv"
    = Some (["Track Name"; "Artist Name(s)"; "Album"]
            :: [ ["Imagine"; "John Lennon"; "Imagine"] ]
               ++ [ ["Heroes"; "David Bowie"; "Heroes"] ]) ∧
  fs_with first_track_csv !! "tracks.csv" = Some first_track_csv ∧
  fs_with second_track_csv !! "tracks.csv" = Some second_track_csv ∧
  result_of (download_music nat always_ok sample_env (fs_with first_track_csv)
               sample_argv 0) = inr tt ∧
  downloads (trace_of (download_music nat always_ok sample_env
                         (fs_with two_tracks_csv) sample_argv 0))
    = downloads (trace_of (download_music nat always_ok sample_env
                             (fs_with first_track_csv) sample_argv 0))
      ++ downloads (trace_of (download_music nat always_ok sample_env
                                (fs_with second_track_csv) sample_argv
                                (world_of (download_music nat always_ok sample_env
                                             (fs_with first_track_csv)
                                             sample_argv 0)))).
Proof.
  do 5 (split; [reflexivity|]).
  apply (split_file_runs_compose always_ok sample_env (fs_with two_tracks_csv)
           (fs_with first_track_csv) (fs_with second_track_csv) sample_argv
           "tracks.csv" ["Track Name"; "Artist Name(s)"; "Album"]
           [ ["Imagine"; "John Lennon"; "Imagine"] ]
           [ ["Heroes"; "David Bowie"; "Heroes"] ] 0);
    reflexivity.
Defined.

Lemma rows_after_failure_ignored_witness :
  sample_argv !! 1 = Some "tracks.csv" ∧
  fs_with two_tracks_csv !! "tracks.csv"
    = Some (["Track Name"; "Artist Name(s)"; "Album"]
            :: [ ["Imagine"; "John Lennon"; "Imagine"] ]
               ++ [ ["Heroes"; "David Bowie"; "Heroes"] ]) ∧
  fs_with first_track_csv !! "tracks.csv" = Some first_track_csv ∧
  result_of (download_music nat first_fails sample_env (fs_with first_track_csv)
               sample_argv 0)
    = inl (DownloadError "ERROR: unable to download") ∧
  download_music nat first_fails sample_env (fs_with two_tracks_csv) sample_argv 0
  = download_music nat first_fails sample_env (fs_with first_track_csv)
      sample_argv 0.
Proof.
  do 4 (split; [reflexivity|]).
  apply (rows_after_failure_ignored first_fails sample_env
           (fs_with two_tracks_csv) (fs_with first_track_csv) sample_argv
           "tracks.csv" ["Track Name"; "Artist Name(s)"; "Album"]
           [ ["Imagine"; "John Lennon"; "Imagine"] ]
           [ ["Heroes"; "David Bowie"; "Heroes"] ]
           (DownloadError "ERROR: unable to download") 0);
    reflexivity.
Defined.

Lemma every_download_is_a_search_witness :
  EDownload (ydl_opts sample_env) ["ytsearch:David Bowie Heroes"] None
    ∈ trace_of (download_music nat always_ok sample_env
                  (fs_with two_tracks_csv) sample_argv 0) ∧
  ∃ q, ["ytsearch:David Bowie Heroes"] = ["ytsearch:" +:+ q] ∧
       ytsearch_query ("ytsearch:" +:+ q) = Some q ∧
       q ≠ EmptyString.
Proof.
  assert (EDownload (ydl_opts sample_env) ["ytsearch:David Bowie Heroes"] None
    ∈ trace_of (download_music nat always_ok sample_env
                  (fs_with two_tracks_csv) sample_argv 0)) as Hin.
  { rewrite run_two_tracks. unfold trace_of; simpl.
    do 4 (apply elem_of_cons; right). apply elem_of_cons; by left. }
  split; [exact Hin|].
  apply (every_download_is_a_search always_ok sample_env
           (fs_with two_tracks_csv) sample_argv 0 _ _ _ Hin).
Defined.

Lemma query_from_cells_under_named_columns_witness :
  ["Artist Name(s)"; "Duration"; "Track Name"] !! 2 = Some "Track Name" ∧
  (∀ k, 2 < k →
     ["Artist Name(s)"; "Duration"; "Track Name"] !! k ≠ Some "Track Name") ∧
  ["Artist Name(s)"; "Duration"; "Track Name"] !! 0 = Some "Artist Name(s)" ∧
  (∀ k, 0 < k →
     ["Artist Name(s)"; "Duration"; "Track Name"] !! k ≠ Some "Artist Name(s)") ∧
  ["John Lennon"; "183"; "Imagine"] !! 2 = Some "Imagine" ∧
  ["John Lennon"; "183"; "Imagine"] !! 0 = Some "John Lennon" ∧
  ∃ raised,
    trace_of (process_row nat always_ok (ydl_opts sample_env)
                (make_row ["Artist Name(s)"; "Duration"; "Track Name"]
                          ["John Lennon"; "183"; "Imagine"]) 0)
    = [EPrint ("Downloading: " +:+ "John Lennon" +:+ " - " +:+ "Imagine");
       EDownload (ydl_opts sample_env)
         ["ytsearch:" +:+ "John Lennon" +:+ " " +:+ "Imagine"] raised].
Proof.
  assert (∀ k, 2 < k →
     ["Artist Name(s)"; "Duration"; "Track Name"] !! k ≠ Some "Track Name")
    as Hlast_name.
  { intros [|[|[|k]]] Hk; [lia..|done]. }
  assert (∀ k, 0 < k →
     ["Artist Name(s)"; "Duration"; "Track Name"] !! k ≠ Some "Artist Name(s)")
    as Hlast_artists.
  { intros [|[|[|k]]] Hk; [lia|done..]. }
  split; [reflexivity|]. split; [exact Hlast_name|]. split; [reflexivity|].
  split; [exact Hlast_artists|]. split; [reflexivity|]. split; [reflexivity|].
  apply (query_from_cells_under_named_columns always_ok (ydl_opts sample_env)
           ["Artist Name(s)"; "Duration"; "Track Name"]
           ["John Lennon"; "183"; "Imagine"] 2 0 "Imagine" "John Lennon" 0);
    [reflexivity | exact Hlast_name | reflexivity | exact Hlast_artists
    | reflexivity | reflexivity].
Defined.

Lemma output_dir_strips_trailing_slashes_witness :
  environ_HOME slash_env = Some "/home/user/" ∧
  ∃ base tail,
    "/home/user/" = base +:+ tail ∧
    Forall (fun c => c = "/"%char) (list_ascii_of_string tail) ∧
    (∀ b, base ≠ b +:+ "/") ∧
    output_dir slash_env = base +:+ "/Music" ∧
    ydl_opts slash_env !! "outtmpl"
      = Some (OStr (base +:+ "/Music/%(title)s.%(ext)s")).
Proof.
  split; [reflexivity|].
  apply (output_dir_strips_trailing_slashes slash_env "/home/user/").
  reflexivity.
Defined.

Example slash_env_output_template :
  ydl_opts slash_env !! "outtmpl"
  = Some (OStr "/home/user/Music/%(title)s.%(ext)s").
Proof. reflexivity. Qed.

(** ** Facts about opening and reading the file *)

Lemma os_error_file_not_found (e : errno) (path : string) :
  os_error e path = FileNotFoundError path ↔ e = ENOENT.
Proof. by destruct e. Qed.

(** A reader stops at the end of the file, on an oversized field or on
    undecodable bytes. *)
Lemma reader_stop_cases (records : csv_file) (e : ending) :
  (reader records e).2 = None ∨
  (∃ msg, (reader records e).2 = Some (CsvError msg)) ∨
  (reader records e).2 = Some UnicodeDecodeError.
Proof.
  induction records as [|r rs IH]; simpl.
  - destruct e; auto.
  - destruct (existsb oversized r); simpl; [eauto|].
    by destruct (reader rs e).
Qed.

(** What the reader yields is a prefix of the records of the file. *)
Lemma reader_yields_prefix (records : csv_file) (e : ending) :
  (reader records e).1 `prefix_of` records.
Proof.
  induction records as [|r rs IH]; simpl; [done|].
  destruct (existsb oversized r); simpl; [apply prefix_nil|].
  destruct (reader rs e) as [yielded stop]. by apply prefix_cons.
Qed.

(** A file without an oversized cell and without undecodable bytes is
    read to its end. *)
Lemma reader_read_to_end (records : csv_file) :
  Forall (Forall (fun cell => oversized cell = false)) records →
  reader records EndOfFile = (records, None).
Proof.
  induction 1 as [|r rs Hr _ IH]; simpl; [done|].
  assert (existsb oversized r = false) as ->.
  { clear -Hr. induction Hr as [|c cs Hc _ IH]; simpl; [done|].
    by rewrite Hc, IH. }
  by rewrite IH.
Qed.

Lemma io_DictReader_read_to_end (f : csv_file) :
  Forall (Forall (fun cell => oversized cell = false)) f →
  Io.DictReader (plain f) = (DictReader f, None).
Proof.
  intros Hfit. unfold Io.DictReader, plain; simpl.
  rewrite reader_read_to_end by done. by destruct f.
Qed.

Section IoRun.

Context {World : Type}.
Variable ydl_download :
  gmap string opt_value -> World -> list string -> World * option string.

Local Abbreviation process := (process_row World ydl_download).
Local Abbreviation script := (download_music World ydl_download).
Local Abbreviation io_script := (Io.download_music World ydl_download).

(** The script, once its argument names a file that can be opened: the
    loop over the rows that the reader yields, then the reader's own
    end. *)
Lemma io_script_eq (env : environment) (os : filesystem)
    (argv : list string) (path : string) (f : file_text) (w : World) :
  argv !! 1 = Some path → os path = inr f →
  io_script env os argv w =
    match for_each (Io.DictReader f).1 (process (ydl_opts env)) w with
    | (t, w', inl e) => (EYoutubeDL (ydl_opts env) :: t, w', inl e)
    | (t, w', inr _) =>
        (EYoutubeDL (ydl_opts env) :: t, w',
         match (Io.DictReader f).2 with
         | None => inr tt
         | Some e => inl e
         end)
    end.
Proof.
  intros Harg Hos.
  unfold Io.download_music, Io.for_rows, Io.open, bind, argv_get, YoutubeDL,
    emit, ret, raise.
  rewrite Harg; simpl. rewrite Hos; simpl.
  destruct (for_each _ _ w) as [[t w'] [e|[]]]; [done|].
  destruct (Io.DictReader f).2; simpl; by rewrite app_nil_r.
Qed.

(** The script, when its argument names nothing that can be opened. *)
Lemma io_script_unopenable (env : environment) (os : filesystem)
    (argv : list string) (path : string) (e : errno) (w : World) :
  argv !! 1 = Some path → os path = inl e →
  io_script env os argv w
    = ([EYoutubeDL (ydl_opts env)], w, inl (os_error e path)).
Proof.
  intros Harg Hos.
  unfold Io.download_music, Io.open, bind, argv_get, YoutubeDL, emit, ret, raise.
  rewrite Harg; simpl. by rewrite Hos.
Qed.

(** On a file that is read to its end, the two embeddings of the script
    give the same run. *)
Lemma io_run_read_to_end (env : environment) (os : filesystem)
    (fs : gmap string csv_file) (argv : list string) (path : string)
    (f : csv_file) (w : World) :
  argv !! 1 = Some path → os path = inr (plain f) → fs !! path = Some f →
  Forall (Forall (fun cell => oversized cell = false)) f →
  io_script env os argv w = script env fs argv w.
Proof.
  intros Harg Hos Hfs Hfit.
  rewrite (io_script_eq env os argv path (plain f) w Harg Hos).
  rewrite (script_eq ydl_download env fs argv path f w Harg Hfs).
  rewrite io_DictReader_read_to_end by done. simpl.
  by destruct (for_each _ _ w) as [[t w'] [e|[]]].
Qed.

Lemma io_DictReader_eq (text : file_text) :
  Io.DictReader text
    = (DictReader (reader (text_records text) (text_end text)).1,
       (reader (text_records text) (text_end text)).2).
Proof.
  unfold Io.DictReader.
  by destruct (reader (text_records text) (text_end text)) as [[|h rs] stop].
Qed.

(** C2, amended. For a well-formed input file (the header names both
    columns, every data row supplies both) that the reader reads to its
    end (no undecodable bytes, no field of more than 131072 characters),
    when every download invocation of the run succeeds, the number of
    download invocations equals the number of data rows of the file. *)
Theorem downloads_equal_data_rows_when_read_to_end (env : environment)
    (os : filesystem) (argv : list string) (path : string)
    (text : file_text) (w : World) :
  argv !! 1 = Some path → os path = inr text →
  text_end text = EndOfFile →
  Forall (Forall (fun cell => oversized cell = false)) (text_records text) →
  well_formed (text_records text) →
  (∀ ydl us raised,
     EDownload ydl us raised ∈ trace_of (io_script env os argv w) →
     raised = None) →
  length (downloads (trace_of (io_script env os argv w)))
    = length (data_rows (text_records text)).
Proof.
  destruct text as [f e]; simpl. intros Harg Hos -> Hfit Hwf.
  assert ((<[path := f]> ∅ : gmap string csv_file) !! path = Some f) as Hfs
    by apply lookup_insert_eq.
  rewrite (io_run_read_to_end env os _ argv path f w Harg Hos Hfs Hfit).
  by apply (downloads_equal_data_rows ydl_download env _ argv path).
Qed.

(** C6, amended. For every input path that cannot be opened, the run
    fails with the OSError that corresponds to the answer of the
    operating system: FileNotFoundError exactly when no such file or
    directory exists, NotADirectoryError, IsADirectoryError,
    PermissionError or a plain OSError otherwise.  The downloader has
    been built by then, and no download invocation is attempted. *)
Theorem unopenable_path_raises_os_error (env : environment) (os : filesystem)
    (argv : list string) (path : string) (e : errno) (w : World) :
  argv !! 1 = Some path → os path = inl e →
  result_of (io_script env os argv w) = inl (os_error e path) ∧
  (result_of (io_script env os argv w) = inl (FileNotFoundError path)
   ↔ e = ENOENT) ∧
  trace_of (io_script env os argv w) = [EYoutubeDL (ydl_opts env)] ∧
  downloads (trace_of (io_script env os argv w)) = [].
Proof.
  intros Harg Hos. rewrite (io_script_unopenable env os argv path e w Harg Hos).
  unfold result_of, trace_of; simpl. split; [done|]. split; [|done].
  rewrite <- os_error_file_not_found. split; [by intros [= ->] | by intros ->].
Qed.

(** C10, amended. Two input files whose reading ends the same way (at
    the end of the file in both, or with the same reader error in both)
    and whose rows, as the reader yields them, agree on "Track Name"
    and "Artist Name(s)", whatever their other columns hold, give the
    same run: the same progress lines and download invocations in the
    same order, the same final world and the same result. *)
Theorem other_columns_do_not_matter_when_read_alike (env : environment)
    (os1 os2 : filesystem) (argv1 argv2 : list string)
    (path1 path2 : string) (f1 f2 : file_text) (w : World) :
  argv1 !! 1 = Some path1 → os1 path1 = inr f1 →
  argv2 !! 1 = Some path2 → os2 path2 = inr f2 →
  Forall2 agree (Io.DictReader f1).1 (Io.DictReader f2).1 →
  (Io.DictReader f1).2 = (Io.DictReader f2).2 →
  io_script env os1 argv1 w = io_script env os2 argv2 w ∧
  printed (trace_of (io_script env os1 argv1 w))
    = printed (trace_of (io_script env os2 argv2 w)) ∧
  downloads (trace_of (io_script env os1 argv1 w))
    = downloads (trace_of (io_script env os2 argv2 w)).
Proof.
  intros Harg1 Hos1 Harg2 Hos2 Hag Hstop.
  assert (io_script env os1 argv1 w = io_script env os2 argv2 w) as Heq.
  { rewrite (io_script_eq env os1 argv1 path1 f1 w Harg1 Hos1).
    rewrite (io_script_eq env os2 argv2 path2 f2 w Harg2 Hos2).
    by rewrite (for_each_agree ydl_download _ _ _ w Hag), Hstop. }
  by rewrite Heq.
Qed.

(** X8. When the header names both columns, no data row can raise
    KeyError, however short or long it is: the run ends normally, with
    the DownloadError of an invocation, or with the error of the reader
    (_csv.Error for an oversized field, UnicodeDecodeError for
    undecodable bytes). *)
Theorem complete_header_no_key_error (env : environment) (os : filesystem)
    (argv : list string) (path : string) (text : file_text)
    (header : list string) (records : list (list string)) (w : World) :
  argv !! 1 = Some path → os path = inr text →
  text_records text = header :: records →
  "Track Name" ∈ header → "Artist Name(s)" ∈ header →
  (∀ key, result_of (io_script env os argv w) ≠ inl (KeyError key)) ∧
  (result_of (io_script env os argv w) = inr tt ∨
   (∃ msg, result_of (io_script env os argv w) = inl (DownloadError msg)) ∨
   (∃ msg, result_of (io_script env os argv w) = inl (CsvError msg)) ∨
   result_of (io_script env os argv w) = inl UnicodeDecodeError).
Proof.
  intros Harg Hos Hrec Ht Ha.
  rewrite (io_script_eq env os argv path text w Harg Hos), io_DictReader_eq.
  pose proof (reader_stop_cases (text_records text) (text_end text)) as Hstop.
  pose proof (reader_yields_prefix (text_records text) (text_end text)) as Hpre.
  destruct (reader (text_records text) (text_end text)) as [yielded stop].
  simpl in *. rewrite Hrec in Hpre.
  assert (Forall (fun r => is_Some (row_fields r !! "Track Name") ∧
                           is_Some (row_fields r !! "Artist Name(s)"))
            (DictReader yielded)) as Hboth.
  { destruct yielded as [|h rs]; [by constructor|]. simpl.
    assert (h = header) as ->
      by (destruct Hpre as [k Hk]; simpl in Hk; congruence).
    apply Forall_fmap, Forall_forall. intros r _. simpl.
    by rewrite !make_row_lookup_is_Some. }
  pose proof (for_each_result_cases ydl_download (ydl_opts env)
                (DictReader yielded) w) as Hcases.
  pose proof (fun key => for_each_no_key_error ydl_download (ydl_opts env)
                (DictReader yielded) w key Hboth) as Hnokey.
  destruct (for_each (DictReader yielded) _ w) as [[t w'] [e|[]]];
    unfold result_of in *; simpl in *.
  - split; [done|].
    destruct Hcases as [?|[?|[?|?]]]; auto; try done; by edestruct Hnokey.
  - destruct Hstop as [-> | [[msg ->] | ->]]; split; eauto; done.
Qed.


End IoRun.

Arguments long_cell : simpl never.

(** ** The script with its failures on the sample inputs *)

Example io_run_two_tracks :
  Io.download_music nat always_ok sample_env (os_with (plain two_tracks_csv))
    sample_argv 0
  = ([EYoutubeDL (ydl_opts sample_env);
      EPrint "Downloading: John Lennon - Imagine";
      EDownload (ydl_opts sample_env) ["ytsearch:John Lennon Imagine"] None;
      EPrint "Downloading: David Bowie - Heroes";
      EDownload (ydl_opts sample_env) ["ytsearch:David Bowie Heroes"] None],
     2, inr tt).
Proof. vm_compute. reflexivity. Qed.

Example io_run_long_album :
  Io.download_music nat always_ok sample_env
    (os_with (plain two_tracks_long_album_csv)) sample_argv 0
  = ([EYoutubeDL (ydl_opts sample_env);
      EPrint "Downloading: John Lennon - Imagine";
      EDownload (ydl_opts sample_env) ["ytsearch:John Lennon Imagine"] None],
     1, inl (CsvError "field larger than field limit (131072)")).
Proof. vm_compute. reflexivity. Qed.

Example io_run_undecodable :
  Io.download_music nat always_ok sample_env
    (os_with {| text_records := first_track_csv; text_end := Undecodable |})
    sample_argv 0
  = ([EYoutubeDL (ydl_opts sample_env);
      EPrint "Downloading: John Lennon - Imagine";
      EDownload (ydl_opts sample_env) ["ytsearch:John Lennon Imagine"] None],
     1, inl UnicodeDecodeError).
Proof. vm_compute. reflexivity. Qed.

Example io_run_absent :
  Io.download_music nat always_ok sample_env (os_with (plain two_tracks_csv))
    absent_argv 0
  = ([EYoutubeDL (ydl_opts sample_env)], 0,
     inl (FileNotFoundError "Music/tracks.csv")).
Proof. vm_compute. reflexivity. Qed.

(** A field of exactly the limit is read; one more character is not. *)
Example field_size_limit_is_inclusive :
  oversized (N.iter 131072 (String "a") EmptyString) = false ∧
  oversized long_cell = true.
Proof. split; vm_compute; reflexivity. Qed.

Lemma well_formed_two_tracks_long_album : well_formed two_tracks_long_album_csv.
Proof.
  unfold well_formed, two_tracks_long_album_csv, supplies; simpl.
  repeat first [ split | apply Forall_cons | apply Forall_nil ]; set_solver.
Qed.

Lemma two_tracks_fit :
  Forall (Forall (fun cell => oversized cell = false)) two_tracks_csv.
Proof. repeat constructor. Qed.

Lemma two_tracks_other_columns_fit :
  Forall (Forall (fun cell => oversized cell = false))
    two_tracks_other_columns_csv.
Proof. repeat constructor. Qed.

(** ** Counterexamples to the claims about opening and reading *)

(** C2 as stated fails: the file below has a header with both columns
    and two data rows that both supply both fields, and every download
    invocation of the run succeeds; yet the run makes one invocation,
    not two, because the reader refuses the second row for its
    oversized Album field. *)
Lemma oversized_field_fewer_downloads :
  well_formed two_tracks_long_album_csv ∧
  length (data_rows two_tracks_long_album_csv) = 2 ∧
  Io.download_music nat always_ok sample_env
    (os_with (plain two_tracks_long_album_csv)) sample_argv 0
  = ([EYoutubeDL (ydl_opts sample_env);
      EPrint "Downloading: John Lennon - Imagine";
      EDownload (ydl_opts sample_env) ["ytsearch:John Lennon Imagine"] None],
     1, inl (CsvError "field larger than field limit (131072)")).
Proof.
  split; [exact well_formed_two_tracks_long_album|]. split; [reflexivity|].
  exact io_run_long_album.
Qed.

(** C6 as stated fails: in a tree that holds the regular file tracks.csv
    and the directory Music, the paths tracks.csv/x and Music name no
    existing file, and the run fails with NotADirectoryError and
    IsADirectoryError, not with FileNotFoundError. *)
Lemma not_a_directory_is_not_file_not_found :
  tree_with (plain two_tracks_csv) !! "tracks.csv/x" = None ∧
  Io.download_music nat always_ok sample_env (os_with (plain two_tracks_csv))
    not_dir_argv 0
  = ([EYoutubeDL (ydl_opts sample_env)], 0,
     inl (NotADirectoryError "tracks.csv/x")) ∧
  tree_with (plain two_tracks_csv) !! "Music" = Some Dir ∧
  Io.download_music nat always_ok sample_env (os_with (plain two_tracks_csv))
    dir_argv 0
  = ([EYoutubeDL (ydl_opts sample_env)], 0, inl (IsADirectoryError "Music")).
Proof. repeat split; vm_compute; reflexivity. Qed.

(** C10 as stated fails: the two files below hold the same rows up to
    the Album column, so their rows agree on "Track Name" and
    "Artist Name(s)"; the first run makes two download invocations and
    ends normally, the second makes one and ends with the reader's
    error for the oversized Album field. *)
Lemma oversized_other_column_changes_run :
  Forall2 agree (DictReader two_tracks_csv)
                (DictReader two_tracks_long_album_csv) ∧
  length (downloads (trace_of (Io.download_music nat always_ok sample_env
            (os_with (plain two_tracks_csv)) sample_argv 0))) = 2 ∧
  result_of (Io.download_music nat always_ok sample_env
               (os_with (plain two_tracks_csv)) sample_argv 0) = inr tt ∧
  length (downloads (trace_of (Io.download_music nat always_ok sample_env
            (os_with (plain two_tracks_long_album_csv)) sample_argv 0))) = 1 ∧
  result_of (Io.download_music nat always_ok sample_env
               (os_with (plain two_tracks_long_album_csv)) sample_argv 0)
    = inl (CsvError "field larger than field limit (131072)").
Proof.
  split; [repeat constructor|].
  rewrite io_run_two_tracks, io_run_long_album. by repeat split.
Qed.

(** ** The theorems about opening and reading at the sample inputs *)

Lemma downloads_equal_data_rows_when_read_to_end_witness :
  sample_argv !! 1 = Some "tracks.csv" ∧
  os_with (plain two_tracks_csv) "tracks.csv" = inr (plain two_tracks_csv) ∧
  text_end (plain two_tracks_csv) = EndOfFile ∧
  Forall (Forall (fun cell => oversized cell = false))
    (text_records (plain two_tracks_csv)) ∧
  well_formed (text_records (plain two_tracks_csv)) ∧
  (∀ ydl us raised,
     EDownload ydl us raised ∈ trace_of (Io.download_music nat always_ok
       sample_env (os_with (plain two_tracks_csv)) sample_argv 0) →
     raised = None) ∧
  length (downloads (trace_of (Io.download_music nat always_ok sample_env
            (os_with (plain two_tracks_csv)) sample_argv 0)))
    = length (data_rows (text_records (plain two_tracks_csv))).
Proof.
  assert (∀ ydl us raised,
     EDownload ydl us raised ∈ trace_of (Io.download_music nat always_ok
       sample_env (os_with (plain two_tracks_csv)) sample_argv 0) →
     raised = None) as Hok.
  { intros ydl us raised. rewrite io_run_two_tracks. unfold trace_of; simpl.
    rewrite !elem_of_cons, elem_of_nil.
    intros [H|[H|[H|[H|[H|[]]]]]]; by inversion H. }
  split; [reflexivity|]. split; [reflexivity|]. split; [reflexivity|].
  split; [exact two_tracks_fit|]. split; [exact well_formed_two_tracks|].
  split; [exact Hok|].
  apply (downloads_equal_data_rows_when_read_to_end always_ok sample_env
           (os_with (plain two_tracks_csv)) sample_argv "tracks.csv"
           (plain two_tracks_csv) 0);
    [reflexivity | reflexivity | reflexivity | exact two_tracks_fit
    | exact well_formed_two_tracks | exact Hok].
Defined.

Lemma unopenable_path_raises_os_error_witness :
  not_dir_argv !! 1 = Some "tracks.csv/x" ∧
  os_with (plain two_tracks_csv) "tracks.csv/x" = inl ENOTDIR ∧
  result_of (Io.download_music nat always_ok sample_env
               (os_with (plain two_tracks_csv)) not_dir_argv 0)
    = inl (os_error ENOTDIR "tracks.csv/x") ∧
  (result_of (Io.download_music nat always_ok sample_env
                (os_with (plain two_tracks_csv)) not_dir_argv 0)
     = inl (FileNotFoundError "tracks.csv/x")
   ↔ ENOTDIR = ENOENT) ∧
  trace_of (Io.download_music nat always_ok sample_env
              (os_with (plain two_tracks_csv)) not_dir_argv 0)
    = [EYoutubeDL (ydl_opts sample_env)] ∧
  downloads (trace_of (Io.download_music nat always_ok sample_env
               (os_with (plain two_tracks_csv)) not_dir_argv 0)) = [].
Proof.
  split; [reflexivity|]. split; [reflexivity|].
  apply (unopenable_path_raises_os_error always_ok sample_env
           (os_with (plain two_tracks_csv)) not_dir_argv "tracks.csv/x"
           ENOTDIR 0);
    reflexivity.
Defined.

Lemma io_agree_two_tracks :
  Forall2 agree (Io.DictReader (plain two_tracks_csv)).1
                (Io.DictReader (plain two_tracks_other_columns_csv)).1.
Proof.
  rewrite (io_DictReader_read_to_end _ two_tracks_fit).
  rewrite (io_DictReader_read_to_end _ two_tracks_other_columns_fit).
  exact agree_two_tracks.
Qed.

Lemma other_columns_do_not_matter_when_read_alike_witness :
  sample_argv !! 1 = Some "tracks.csv" ∧
  os_with (plain two_tracks_csv) "tracks.csv" = inr (plain two_tracks_csv) ∧
  os_with (plain two_tracks_other_columns_csv) "tracks.csv"
    = inr (plain two_tracks_other_columns_csv) ∧
  Forall2 agree (Io.DictReader (plain two_tracks_csv)).1
                (Io.DictReader (plain two_tracks_other_columns_csv)).1 ∧
  (Io.DictReader (plain two_tracks_csv)).2
    = (Io.DictReader (plain two_tracks_other_columns_csv)).2 ∧
  Io.download_music nat always_ok sample_env (os_with (plain two_tracks_csv))
    sample_argv 0
  = Io.download_music nat always_ok sample_env
      (os_with (plain two_tracks_other_columns_csv)) sample_argv 0.
Proof.
  do 3 (split; [reflexivity|]). split; [exact io_agree_two_tracks|].
  split; [reflexivity|].
  apply (other_columns_do_not_matter_when_read_alike always_ok sample_env
           (os_with (plain two_tracks_csv))
           (os_with (plain two_tracks_other_columns_csv))
           sample_argv sample_argv "tracks.csv" "tracks.csv"
           (plain two_tracks_csv) (plain two_tracks_other_columns_csv) 0);
    [reflexivity | reflexivity | reflexivity | reflexivity
    | exact io_agree_two_tracks | reflexivity].
Defined.

Lemma complete_header_no_key_error_witness :
  sample_argv !! 1 = Some "tracks.csv" ∧
  os_with (plain short_row_csv) "tracks.csv" = inr (plain short_row_csv) ∧
  text_records (plain short_row_csv)
    = ["Track Name"; "Artist Name(s)"] :: [ ["Imagine"] ] ∧
  "Track Name" ∈ ["Track Name"; "Artist Name(s)"] ∧
  "Artist Name(s)" ∈ ["Track Name"; "Artist Name(s)"] ∧
  ∀ key,
    result_of (Io.download_music nat first_fails sample_env
                 (os_with (plain short_row_csv)) sample_argv 0)
    ≠ inl (KeyError key).
Proof.
  assert ("Track Name" ∈ ["Track Name"; "Artist Name(s)"]) as Ht
    by (apply elem_of_cons; by left).
  assert ("Artist Name(s)" ∈ ["Track Name"; "Artist Name(s)"]) as Ha
    by (apply elem_of_cons; right; apply elem_of_cons; by left).
  split; [reflexivity|]. split; [reflexivity|]. split; [reflexivity|].
  split; [exact Ht|]. split; [exact Ha|].
  apply (complete_header_no_key_error first_fails sample_env
           (os_with (plain short_row_csv)) sample_argv "tracks.csv"
           (plain short_row_csv) ["Track Name"; "Artist Name(s)"]
           [ ["Imagine"] ] 0);
    [reflexivity | reflexivity | reflexivity | exact Ht | exact Ha].
Defined.

